(** * quzi.py: the deck/card repository and the study session

    A shallow embedding of [src/quzi.py]: the SQLite store behind
    [init_db], the [Model] class that is the only code touching it, the JSON
    export/import of a deck, and the queue logic of [StudyWindow].

    Conventions of the embedding.
    - A table is the list of its rows in rowid order, which is the order of
      SQLite's table b-tree and so the order of a scan without ORDER BY.
    - A connection has a durable database (what is on disk, what survives a
      crash) and a working one (what its own statements see); [commit]
      copies the second onto the first.
    - Python exceptions are values of [exn]; a method returns an [outcome]
      together with the state it leaves behind, since what was committed
      before a raise stays committed.
    - [datetime.now(timezone.utc).isoformat()] reads an environment clock:
      the k-th reading since the start is [clock w k].
    - A rowid is a 64-bit integer, and sqlite3 binds a Python int as a
      parameter only within that range (OverflowError beyond it, as
      [bind_param] has it).  The id arguments of the [Model] methods are
      modelled for ids in that range, where every rowid of a table lies; a
      theorem that states what a method returns for an id that need not be
      a row's says that sqlite3 binds it: [bindable (JNum id) = true]. *)

From Stdlib Require Import ZArith List String Ascii Bool Lia.
From Stdlib Require Import DecimalString Sorted Permutation.
Import ListNotations.
Open Scope string_scope.
Open Scope list_scope.
Open Scope Z_scope.
Set Warnings "-register-all".

(** ** Values *)

(** What [json.load] can return, which is also what the code passes on as
    SQL parameters.  [JObj] lists the items of a dict, one per key.
    Numbers are the integer ones; a JSON number with a fraction or
    exponent is outside this model. *)
Inductive json : Type :=
| JNull
| JBool (b : bool)
| JNum (n : Z)
| JStr (s : string)
| JArr (items : list json)
| JObj (fields : list (string * json)).

(** The exceptions the modelled code can raise. *)
Inductive exn : Type :=
| OSError              (* open() on a missing or forbidden path *)
| UnicodeDecodeError   (* the file is not UTF-8 *)
| JSONDecodeError      (* the text is not JSON *)
| AttributeError       (* .get on something that is not a dict *)
| TypeError            (* iterating something that is not iterable *)
| ValueError (msg : string)
| OverflowError        (* an int that does not fit SQLite's 64 bits *)
| ProgrammingError     (* a parameter of a type sqlite3 cannot bind *)
| IntegrityError.      (* NOT NULL violated *)

Inductive outcome (A : Type) : Type :=
| Ok (a : A)
| Raise (e : exn).
Arguments Ok {A} a.
Arguments Raise {A} e.

(** ** The store *)

(** decks(id INTEGER PRIMARY KEY, name TEXT NOT NULL, created_at TEXT NOT NULL) *)
Record deck : Type := mkDeck {
  d_id : Z;
  d_name : string;
  d_created_at : string
}.

(** cards(id, deck_id NOT NULL, front TEXT, back TEXT, correct_count
    DEFAULT 0, seen_count DEFAULT 0, created_at TEXT); [None] is SQL NULL. *)
Record card : Type := mkCard {
  c_id : Z;
  c_deck_id : Z;
  c_front : option string;
  c_back : option string;
  c_correct_count : Z;
  c_seen_count : Z;
  c_created_at : string
}.

Record db : Type := mkDb {
  decks : list deck;
  cards : list card
}.

(** A file as [open] and [json.load] meet it. *)
Inductive file : Type :=
| Forbidden                 (* open() raises *)
| Garbled                   (* bytes that are not UTF-8 *)
| NotJson                   (* text that json.load rejects *)
| JsonText (doc : json).    (* the text json.dump writes for doc *)

Record world : Type := mkWorld {
  durable : db;
  working : db;
  files : list (string * file);
  clock : nat -> string;
  ticks : nat
}.

(** What [init_db] yields on a fresh database file: both tables, no rows.
    The connection is opened with sqlite3's defaults and no PRAGMA is ever
    issued, so the FOREIGN KEY clause of [cards] is declared but not
    enforced by SQLite. *)
Definition empty_db : db := mkDb [] [].

Definition init_db (fs : list (string * file)) (clk : nat -> string) : world :=
  mkWorld empty_db empty_db fs clk 0.

(** ** A state and exception monad *)

Definition M (S A : Type) : Type := S -> outcome A * S.

Definition ret {S A} (a : A) : M S A := fun s => (Ok a, s).
Definition raise {S A} (e : exn) : M S A := fun s => (Raise e, s).
Definition bind {S A B} (m : M S A) (k : A -> M S B) : M S B :=
  fun s => match m s with
           | (Ok a, s') => k a s'
           | (Raise e, s') => (Raise e, s')
           end.
Definition lift_outcome {S A} (o : outcome A) : M S A := fun s => (o, s).

Notation "x <- m ;; k" := (bind m (fun x => k))
  (at level 61, m at next level, right associativity).
Notation "m ;; k" := (bind m (fun _ => k))
  (at level 61, right associativity).

(** Run the steps of a method body one after the other. *)
Fixpoint run_all {S} (steps : list (M S unit)) : M S unit :=
  match steps with
  | [] => ret tt
  | m :: rest => m ;; run_all rest
  end.

(** ** Python and SQLite primitives *)

(** Truth value of a Python object (for [or], [if], [not]). *)
Definition truthy (v : json) : bool :=
  match v with
  | JNull => false
  | JBool b => b
  | JNum n => negb (n =? 0)
  | JStr s => negb (String.eqb s "")
  | JArr items => match items with [] => false | _ => true end
  | JObj fields => match fields with [] => false | _ => true end
  end.

(** [d.get(key)] on a parsed object. *)
Fixpoint dict_get (key : string) (fields : list (string * json)) : option json :=
  match fields with
  | [] => None
  | (k, v) :: rest => if String.eqb k key then Some v else dict_get key rest
  end.

(** [v.get(key, default)]: only a dict has the method. *)
Definition py_get (v : json) (key : string) (default : json) : outcome json :=
  match v with
  | JObj fields =>
      match dict_get key fields with
      | Some x => Ok x
      | None => Ok default
      end
  | _ => Raise AttributeError
  end.

(** [for x in v]: the items of a list, the characters of a string, the
    keys of a dict; nothing else is iterable. *)
Definition py_iter (v : json) : outcome (list json) :=
  match v with
  | JArr items => Ok items
  | JStr s => Ok (map (fun ch => JStr (String ch EmptyString)) (list_ascii_of_string s))
  | JObj fields => Ok (map (fun kv => JStr (fst kv)) fields)
  | _ => Raise TypeError
  end.

(** A value as SQLite holds it once bound. *)
Inductive sqlval : Type :=
| SqlNull
| SqlInt (n : Z)
| SqlText (s : string).

Definition bind_param (v : json) : outcome sqlval :=
  match v with
  | JNull => Ok SqlNull
  | JBool b => Ok (SqlInt (if b then 1 else 0))
  | JNum n =>
      if (- 2 ^ 63 <=? n) && (n <? 2 ^ 63) then Ok (SqlInt n)
      else Raise OverflowError
  | JStr s => Ok (SqlText s)
  | JArr _ | JObj _ => Raise ProgrammingError
  end.

(** A column of TEXT affinity stores an integer as its decimal text. *)
Definition text_affinity (v : sqlval) : option string :=
  match v with
  | SqlNull => None
  | SqlInt n => Some (NilZero.string_of_int (Z.to_int n))
  | SqlText s => Some s
  end.

(** The rowid an INTEGER PRIMARY KEY gets when none is given: one more
    than the largest in the table, 1 in an empty table. *)
Definition next_rowid (ids : list Z) : Z :=
  match ids with
  | [] => 1
  | x :: rest => fold_left Z.max rest x + 1
  end.

(** [ORDER BY id]. *)
Fixpoint insert_by_id (c : card) (sorted : list card) : list card :=
  match sorted with
  | [] => [c]
  | x :: rest =>
      if c_id c <=? c_id x then c :: x :: rest
      else x :: insert_by_id c rest
  end.

Fixpoint order_by_id (rows : list card) : list card :=
  match rows with
  | [] => []
  | c :: rest => insert_by_id c (order_by_id rest)
  end.

(** [ORDER BY name], on the bytes of the text as SQLite's BINARY collation. *)
Fixpoint insert_by_name (d : deck) (sorted : list deck) : list deck :=
  match sorted with
  | [] => [d]
  | x :: rest =>
      if String.leb (d_name d) (d_name x) then d :: x :: rest
      else x :: insert_by_name d rest
  end.

Fixpoint order_by_name (rows : list deck) : list deck :=
  match rows with
  | [] => []
  | d :: rest => insert_by_name d (order_by_name rest)
  end.

(** Row-level helpers for the statements. *)
Definition set_deck_name (new_name : string) (d : deck) : deck :=
  mkDeck (d_id d) new_name (d_created_at d).

Definition set_card_text (front back : option string) (c : card) : card :=
  mkCard (c_id c) (c_deck_id c) front back
         (c_correct_count c) (c_seen_count c) (c_created_at c).

(** SET correct_count = correct_count + 1, seen_count = seen_count + 1 *)
Definition bump_both (c : card) : card :=
  mkCard (c_id c) (c_deck_id c) (c_front c) (c_back c)
         (c_correct_count c + 1) (c_seen_count c + 1) (c_created_at c).

(** SET seen_count = seen_count + 1 *)
Definition bump_seen (c : card) : card :=
  mkCard (c_id c) (c_deck_id c) (c_front c) (c_back c)
         (c_correct_count c) (c_seen_count c + 1) (c_created_at c).

(** [UPDATE t SET ... WHERE id=?] *)
Definition update_where {R} (id_of : R -> Z) (id : Z) (f : R -> R) (rows : list R) : list R :=
  map (fun r => if id_of r =? id then f r else r) rows.

(** [DELETE FROM t WHERE col=?] *)
Definition delete_where {R} (col : R -> Z) (v : Z) (rows : list R) : list R :=
  filter (fun r => negb (col r =? v)) rows.

(** [SELECT ... FROM t WHERE col=?], in table order. *)
Definition select_where {R} (col : R -> Z) (v : Z) (rows : list R) : list R :=
  filter (fun r => col r =? v) rows.

(** ** Connection-level actions *)

Definition set_working (d : db) (w : world) : world :=
  mkWorld (durable w) d (files w) (clock w) (ticks w).

(** [c.execute] of a statement that changes rows. *)
Definition execute (stmt : db -> db) : M world unit :=
  fun w => (Ok tt, set_working (stmt (working w)) w).

(** [c.execute] of a SELECT, followed by the fetch. *)
Definition query {A} (sel : db -> A) : M world A :=
  fun w => (Ok (sel (working w)), w).

(** [self.conn.commit()] *)
Definition commit : M world unit :=
  fun w => (Ok tt, mkWorld (working w) (working w) (files w) (clock w) (ticks w)).

(** [datetime.now(timezone.utc).isoformat()] *)
Definition now_isoformat : M world string :=
  fun w => (Ok (clock w (ticks w)),
            mkWorld (durable w) (working w) (files w) (clock w) (S (ticks w))).

(** What a process restart finds: the durable database only. *)
Definition crash (w : world) : world := set_working (durable w) w.

(** No statement is waiting for a commit. *)
Definition synced (w : world) : Prop := working w = durable w.

(** [open(path, 'r')] followed by [json.load]. *)
Fixpoint lookup_file (path : string) (fs : list (string * file)) : option file :=
  match fs with
  | [] => None
  | (p, f) :: rest => if String.eqb p path then Some f else lookup_file path rest
  end.

Definition read_json (path : string) : M world json :=
  fun w => match lookup_file path (files w) with
           | None => (Raise OSError, w)
           | Some Forbidden => (Raise OSError, w)
           | Some Garbled => (Raise UnicodeDecodeError, w)
           | Some NotJson => (Raise JSONDecodeError, w)
           | Some (JsonText doc) => (Ok doc, w)
           end.

(** [open(path, 'w')] followed by [json.dump]. *)
Definition write_json (path : string) (doc : json) : M world unit :=
  fun w => match lookup_file path (files w) with
           | Some Forbidden => (Raise OSError, w)
           | _ => (Ok tt, mkWorld (durable w) (working w)
                                  ((path, JsonText doc) :: files w)
                                  (clock w) (ticks w))
           end.

(** ** class Model *)

Module Model.

(** The row tuples [cards_in_deck] fetches:
    (id, front, back, correct_count, seen_count). *)
Definition card_row : Type := (Z * option string * option string * Z * Z)%type.

Definition as_row (c : card) : card_row :=
  (c_id c, c_front c, c_back c, c_correct_count c, c_seen_count c).

(** SELECT id, name FROM decks ORDER BY name *)
Definition all_decks : M world (list (Z * string)) :=
  query (fun d => map (fun r => (d_id r, d_name r)) (order_by_name (decks d))).

(** INSERT INTO decks (name, created_at) VALUES (?, ?) *)
Definition insert_deck (name created_at : string) : M world Z :=
  fun w =>
    let d := working w in
    let id := next_rowid (map d_id (decks d)) in
    (Ok id, set_working (mkDb (decks d ++ [mkDeck id name created_at]) (cards d)) w).

Definition add_deck (name : json) : M world Z :=
  created_at <- now_isoformat ;;
  v <- lift_outcome (bind_param name) ;;
  match text_affinity v with
  | None => raise IntegrityError
  | Some text =>
      lastrowid <- insert_deck text created_at ;;
      commit ;;
      ret lastrowid
  end.

(** UPDATE decks SET name=? WHERE id=? *)
Definition rename_deck (deck_id : Z) (new_name : json) : M world unit :=
  v <- lift_outcome (bind_param new_name) ;;
  match text_affinity v with
  | None =>
      fun w => if existsb (fun r => d_id r =? deck_id) (decks (working w))
               then (Raise IntegrityError, w) else commit w
  | Some text =>
      execute (fun d => mkDb (update_where d_id deck_id (set_deck_name text) (decks d))
                             (cards d)) ;;
      commit
  end.

(** DELETE FROM cards WHERE deck_id=? *)
Definition delete_cards_of (deck_id : Z) (d : db) : db :=
  mkDb (decks d) (delete_where c_deck_id deck_id (cards d)).

(** DELETE FROM decks WHERE id=? *)
Definition delete_deck_row (deck_id : Z) (d : db) : db :=
  mkDb (delete_where d_id deck_id (decks d)) (cards d).

(** The three statements of [delete_deck], in program order. *)
Definition delete_deck_body (deck_id : Z) : list (M world unit) :=
  [ execute (delete_cards_of deck_id);
    execute (delete_deck_row deck_id);
    commit ].

Definition delete_deck (deck_id : Z) : M world unit :=
  run_all (delete_deck_body deck_id).

(** SELECT id, front, back, correct_count, seen_count FROM cards
    WHERE deck_id=? ORDER BY id *)
Definition cards_in_deck (deck_id : Z) : M world (list card_row) :=
  query (fun d => map as_row (order_by_id (select_where c_deck_id deck_id (cards d)))).

(** INSERT INTO cards (deck_id, front, back, created_at) VALUES (?, ?, ?, ?);
    the two counters take their DEFAULT 0. *)
Definition insert_card (deck_id : Z) (front back : option string) (created_at : string)
  : M world Z :=
  fun w =>
    let d := working w in
    let id := next_rowid (map c_id (cards d)) in
    (Ok id,
     set_working (mkDb (decks d)
                       (cards d ++ [mkCard id deck_id front back 0 0 created_at])) w).

Definition add_card (deck_id : Z) (front back : json) : M world Z :=
  created_at <- now_isoformat ;;
  f <- lift_outcome (bind_param front) ;;
  b <- lift_outcome (bind_param back) ;;
  lastrowid <- insert_card deck_id (text_affinity f) (text_affinity b) created_at ;;
  commit ;;
  ret lastrowid.

(** UPDATE cards SET front=?, back=? WHERE id=? *)
Definition update_card (card_id : Z) (front back : json) : M world unit :=
  f <- lift_outcome (bind_param front) ;;
  b <- lift_outcome (bind_param back) ;;
  execute (fun d =>
             mkDb (decks d)
                  (update_where c_id card_id
                                (set_card_text (text_affinity f) (text_affinity b))
                                (cards d))) ;;
  commit.

(** DELETE FROM cards WHERE id=? *)
Definition delete_card (card_id : Z) : M world unit :=
  execute (fun d => mkDb (decks d) (delete_where c_id card_id (cards d))) ;;
  commit.

(** One of two UPDATEs ... WHERE id=?, then the commit. *)
Definition record_result (card_id : Z) (correct : bool) : M world unit :=
  (if correct
   then execute (fun d => mkDb (decks d) (update_where c_id card_id bump_both (cards d)))
   else execute (fun d => mkDb (decks d) (update_where c_id card_id bump_seen (cards d)))) ;;
  commit.

Definition opt_json (o : option string) : json :=
  match o with
  | None => JNull
  | Some s => JStr s
  end.

(** dict(front=r[0], back=r[1], correct_count=r[2], seen_count=r[3],
    created_at=r[4]) *)
Definition export_card (c : card) : json :=
  JObj [ ("front", opt_json (c_front c));
         ("back", opt_json (c_back c));
         ("correct_count", JNum (c_correct_count c));
         ("seen_count", JNum (c_seen_count c));
         ("created_at", JStr (c_created_at c)) ].

(** SELECT name FROM decks WHERE id=?  and fetchone *)
Definition deck_name_of (deck_id : Z) (d : db) : option string :=
  match select_where d_id deck_id (decks d) with
  | [] => None
  | r :: _ => Some (d_name r)
  end.

Definition export_deck_json (deck_id : Z) (path : string) : M world unit :=
  row <- query (deck_name_of deck_id) ;;
  match row with
  | None => raise (ValueError "Deck not found")
  | Some deck_name =>
      (* SELECT front, back, correct_count, seen_count, created_at
         FROM cards WHERE deck_id=?   (no ORDER BY) *)
      cards <- query (fun d => map export_card
                                   (select_where c_deck_id deck_id (cards d))) ;;
      exported_at <- now_isoformat ;;
      write_json path (JObj [ ("name", JStr deck_name);
                              ("exported_at", JStr exported_at);
                              ("cards", JArr cards) ])
  end.

(** The body of the for loop of [import_deck_json]. *)
Definition import_card (deck_id : Z) (card : json) : M world Z :=
  front <- lift_outcome (py_get card "front" (JStr "")) ;;
  back <- lift_outcome (py_get card "back" (JStr "")) ;;
  add_card deck_id front back.

Fixpoint import_cards (deck_id : Z) (items : list json) : M world unit :=
  match items with
  | [] => ret tt
  | card :: rest => import_card deck_id card ;; import_cards deck_id rest
  end.

Definition import_deck_json (path : string) : M world Z :=
  payload <- read_json path ;;
  given <- lift_outcome (py_get payload "name" JNull) ;;
  name <- (if truthy given then ret given
           else (stamp <- now_isoformat ;; ret (JStr ("Deck " ++ stamp)%string))) ;;
  deck_id <- add_deck name ;;
  listed <- lift_outcome (py_get payload "cards" (JArr [])) ;;
  items <- lift_outcome (py_iter listed) ;;
  import_cards deck_id items ;;
  ret deck_id.

End Model.

(** ** class StudyWindow *)

Module StudyWindow.

(** {'id': c[0], 'front': c[1], 'back': c[2]} *)
Record entry : Type := mkEntry {
  e_id : Z;
  e_front : option string;
  e_back : option string
}.

(** The fields of the window the methods read and write; [destroyed] is
    set by [self.destroy()] and [dialogs] collects the message boxes. *)
Record t : Type := mk {
  queue : list entry;
  current : option entry;
  back_shown : bool;
  front_lbl : string;
  destroyed : bool;
  dialogs : list string
}.

(** [text or '(empty)'] *)
Definition or_empty (text : option string) : string :=
  match text with
  | None => "(empty)"
  | Some s => if String.eqb s "" then "(empty)" else s
  end.

Definition next_card : M t unit :=
  fun win =>
    match queue win with
    | [] =>
        (Ok tt, mk (queue win) (current win) (back_shown win) (front_lbl win) true
                   (dialogs win ++ ["You finished the queue!"]))
    | head :: rest =>
        (Ok tt, mk rest (Some head) false (or_empty (e_front head))
                   (destroyed win) (dialogs win))
    end.

Definition flip : M t unit :=
  fun win =>
    match current win with
    | None => (Ok tt, win)
    | Some cur =>
        if back_shown win
        then (Ok tt, mk (queue win) (current win) false (or_empty (e_front cur))
                        (destroyed win) (dialogs win))
        else (Ok tt, mk (queue win) (current win) true (or_empty (e_back cur))
                        (destroyed win) (dialogs win))
    end.

(** [self.queue.append(self.current)] *)
Definition requeue (cur : entry) : M t unit :=
  fun win => (Ok tt, mk (queue win ++ [cur]) (current win) (back_shown win)
                        (front_lbl win) (destroyed win) (dialogs win)).

(** A method of the window runs on the window and leaves the store alone;
    a method of the model does the opposite. *)
Definition on_window {A} (m : M t A) : M (t * world) A :=
  fun s => let (r, win') := m (fst s) in (r, (win', snd s)).

Definition on_model {A} (m : M world A) : M (t * world) A :=
  fun s => let (r, w') := m (snd s) in (r, (fst s, w')).

Definition mark (correct : bool) : M (t * world) unit :=
  fun s =>
    match current (fst s) with
    | None => (Ok tt, s)
    | Some cur =>
        (on_model (Model.record_result (e_id cur) correct) ;;
         (if correct then ret tt else on_window (requeue cur)) ;;
         on_window next_card) s
    end.

(** [__init__]: copy the parent's study queue, build the widgets, show
    the first card. *)
Definition init (study_queue : list entry) : t :=
  snd (next_card (mk study_queue None false "" false [])).

End StudyWindow.

(** [n] presses of the same button, Correct or Incorrect. *)
Fixpoint press (n : nat) (correct : bool) (s : StudyWindow.t * world)
  : StudyWindow.t * world :=
  match n with
  | O => s
  | S k => press k correct (snd (StudyWindow.mark correct s))
  end.

(** [App.start_study], without the dialogs: the queue it builds from the
    rows of the selected deck, and the window it opens. *)
Definition study_entry (row : Model.card_row) : StudyWindow.entry :=
  let '(id, front, back, _, _) := row in StudyWindow.mkEntry id front back.

Definition start_study (selected_deck_id : Z) (w : world) : option StudyWindow.t :=
  match fst (Model.cards_in_deck selected_deck_id w) with
  | Ok [] => None
  | Ok rows => Some (StudyWindow.init (map study_entry rows))
  | Raise _ => None
  end.

(** ** Reading the store *)

Definition find_card (id : Z) (d : db) : option card :=
  find (fun c => c_id c =? id) (cards d).

Definition find_deck (id : Z) (d : db) : option deck :=
  find (fun r => d_id r =? id) (decks d).

Definition deck_exists (id : Z) (d : db) : bool :=
  existsb (fun r => d_id r =? id) (decks d).

(** No card whose deck_id names no row of [decks]. *)
Definition no_orphans (d : db) : Prop :=
  forall c, In c (cards d) -> deck_exists (c_deck_id c) d = true.

(** Rows sit in the table in strictly increasing rowid order. *)
Definition rowid_ordered (d : db) : Prop :=
  StronglySorted Z.lt (map d_id (decks d)) /\
  StronglySorted Z.lt (map c_id (cards d)).

(** ** Reading an import payload *)

(** The text a card of the payload gives for [key]: what
    [card.get(key, '')] binds to in a TEXT column. *)
Definition field_text (card : json) (key : string) : option string :=
  match py_get card key (JStr "") with
  | Ok v => match bind_param v with
            | Ok x => text_affinity x
            | Raise _ => None
            end
  | Raise _ => None
  end.

Definition bindable (v : json) : bool :=
  match bind_param v with
  | Ok _ => true
  | Raise _ => false
  end.

(** An entry of [cards] the loop of [import_deck_json] gets through: an
    object whose front and back, where given, are values sqlite3 binds. *)
Definition importable_card (card : json) : bool :=
  match card with
  | JObj fields =>
      match dict_get "front" fields with
      | Some v => bindable v
      | None => true
      end &&
      match dict_get "back" fields with
      | Some v => bindable v
      | None => true
      end
  | _ => false
  end.

(** A payload whose [cards], where given, can be iterated and holds
    importable entries only. *)
Definition importable_cards (fields : list (string * json)) : bool :=
  match dict_get "cards" fields with
  | None => true
  | Some listed =>
      match py_iter listed with
      | Ok items => forallb importable_card items
      | Raise _ => false
      end
  end.

(** The sequence [payload.get('cards', [])] iterates over. *)
Definition listed_cards (fields : list (string * json)) : list json :=
  match dict_get "cards" fields with
  | None => []
  | Some listed =>
      match py_iter listed with
      | Ok items => items
      | Raise _ => []
      end
  end.

(** The rows a run of successful [add_card] calls appends for [items]:
    consecutive rowids from [first_id], consecutive clock readings from
    [tick], counters at their default. *)
Fixpoint fresh_cards (deck_id first_id : Z) (clk : nat -> string) (tick : nat)
         (items : list json) : list card :=
  match items with
  | [] => []
  | item :: rest =>
      mkCard first_id deck_id (field_text item "front") (field_text item "back")
             0 0 (clk tick)
      :: fresh_cards deck_id (first_id + 1) clk (S tick) rest
  end.

(** The (front, back) pairs of a listing. *)
Definition text_pair (row : Model.card_row) : option string * option string :=
  let '(_, front, back, _, _) := row in (front, back).

(** The states a successful import passes through. *)
Definition tick (w : world) : world :=
  mkWorld (durable w) (working w) (files w) (clock w) (S (ticks w)).

Definition after_add_deck (name : string) (w : world) : world :=
  let d := mkDb (decks (working w)
                 ++ [mkDeck (next_rowid (map d_id (decks (working w)))) name
                            (clock w (ticks w))])
                (cards (working w)) in
  mkWorld d d (files w) (clock w) (S (ticks w)).

Definition after_import_cards (deck_id : Z) (items : list json) (w : world) : world :=
  let d := mkDb (decks (working w))
                (cards (working w)
                 ++ fresh_cards deck_id (next_rowid (map c_id (cards (working w))))
                                (clock w) (ticks w) items) in
  mkWorld d d (files w) (clock w) (ticks w + List.length items)%nat.

(** [name] absent from the payload, or present with a false truth value
    (the empty string among them). *)
Definition absent_or_empty (given : option json) : bool :=
  match given with
  | None => true
  | Some v => negb (truthy v)
  end.

(** ** Sample stores *)

(** A clock whose k-th reading is the text "t" followed by k. *)
Definition sample_clock (k : nat) : string :=
  ("t" ++ NilZero.string_of_uint (Nat.to_uint k))%string.

(** The deck "Spanish" with its two cards, built through the model. *)
Definition build_spanish : M world Z :=
  deck_id <- Model.add_deck (JStr "Spanish") ;;
  Model.add_card deck_id (JStr "hola") (JStr "hello") ;;
  Model.add_card deck_id (JStr "adios") (JStr "bye") ;;
  ret deck_id.

Definition spanish_world : world :=
  Eval vm_compute in snd (build_spanish (init_db [] sample_clock)).

Definition hola : card := mkCard 1 1 (Some "hola") (Some "hello") 0 0 "t1".

(** A card added under a deck id that no deck has, then an export of deck
    1 and an import of the file; the result is the listing of the exported
    deck and the listing of the imported one. *)
Definition stray_card_roundtrip : M world (list Model.card_row * list Model.card_row) :=
  deck_id <- Model.add_deck (JStr "Spanish") ;;
  Model.add_card deck_id (JStr "hola") (JStr "hello") ;;
  Model.add_card (deck_id + 1) (JStr "stray") (JStr "card") ;;
  Model.export_deck_json deck_id "spanish.json" ;;
  imported <- Model.import_deck_json "spanish.json" ;;
  before <- Model.cards_in_deck deck_id ;;
  after <- Model.cards_in_deck imported ;;
  ret (before, after).







(** "Spanish" after its second card, "adios", was deleted. *)
Definition adios_deleted_world : world :=
  Eval vm_compute in snd (Model.delete_card 2 spanish_world).

(** "Spanish" as above and "French" with one card. *)
Definition build_two_decks : M world Z :=
  build_spanish ;;
  deck_id <- Model.add_deck (JStr "French") ;;
  Model.add_card deck_id (JStr "bonjour") (JStr "hello") ;;
  ret deck_id.

Definition two_decks_world : world :=
  Eval vm_compute in snd (build_two_decks (init_db [] sample_clock)).

(** The study queue [start_study] builds for "Spanish". *)
Definition spanish_entries : list StudyWindow.entry :=
  [ StudyWindow.mkEntry 1 (Some "hola") (Some "hello");
    StudyWindow.mkEntry 2 (Some "adios") (Some "bye") ].

(** ** Histories *)

(** The calls a client of [Model] can make. *)
Inductive call : Type :=
| AllDecks
| AddDeck (name : json)
| RenameDeck (deck_id : Z) (new_name : json)
| DeleteDeck (deck_id : Z)
| CardsInDeck (deck_id : Z)
| AddCard (deck_id : Z) (front back : json)
| UpdateCard (card_id : Z) (front back : json)
| DeleteCard (card_id : Z)
| RecordResult (card_id : Z) (correct : bool)
| ExportDeckJson (deck_id : Z) (path : string)
| ImportDeckJson (path : string).

(** The state a call leaves, whether it returned or raised. *)
Definition perform (c : call) (w : world) : world :=
  match c with
  | AllDecks => snd (Model.all_decks w)
  | AddDeck name => snd (Model.add_deck name w)
  | RenameDeck deck_id new_name => snd (Model.rename_deck deck_id new_name w)
  | DeleteDeck deck_id => snd (Model.delete_deck deck_id w)
  | CardsInDeck deck_id => snd (Model.cards_in_deck deck_id w)
  | AddCard deck_id front back => snd (Model.add_card deck_id front back w)
  | UpdateCard card_id front back => snd (Model.update_card card_id front back w)
  | DeleteCard card_id => snd (Model.delete_card card_id w)
  | RecordResult card_id correct => snd (Model.record_result card_id correct w)
  | ExportDeckJson deck_id path => snd (Model.export_deck_json deck_id path w)
  | ImportDeckJson path => snd (Model.import_deck_json path w)
  end.

(** The states of a program that opens a fresh database and then only
    calls the model. *)
Inductive reachable : world -> Prop :=
| reach_init fs clk : reachable (init_db fs clk)
| reach_call w c : reachable w -> reachable (perform c w).

(** A history: a deck, a card, a right answer on it. *)
Definition sample_history : world :=
  perform (RecordResult 1 true)
    (perform (AddCard 1 (JStr "hola") (JStr "hello"))
       (perform (AddDeck (JStr "Spanish")) (init_db [] sample_clock))).

(** A call other than an [add_card] under a missing deck id. *)
Definition respects_decks (c : call) (w : world) : Prop :=
  match c with
  | AddCard deck_id _ _ => deck_exists deck_id (working w) = true
  | _ => True
  end.

(** A computation that cannot leave [I] once it holds. *)
Definition keeps {A} (I : world -> Prop) (m : M world A) : Prop :=
  forall w, I w -> I (snd (m w)).

(** Both copies of the database are in rowid order. *)
Definition ordered (w : world) : Prop :=
  rowid_ordered (working w) /\ rowid_ordered (durable w).

(** ** Statistics over a history *)

(** Both counters of every card are in range: 0 <= correct <= seen. *)
Definition counted (d : db) : Prop :=
  forall c, In c (cards d) -> 0 <= c_correct_count c <= c_seen_count c.

(** Every call but [record_result]. *)
Definition leaves_statistics (c : call) : bool :=
  match c with
  | RecordResult _ _ => false
  | _ => true
  end.

(** Every call but [update_card]. *)
Definition leaves_text (c : call) : bool :=
  match c with
  | UpdateCard _ _ _ => false
  | _ => true
  end.

(** ** Listings *)

(** What [cards_in_deck] and [all_decks] return, as plain lists. *)
Definition listing (deck_id : Z) (w : world) : list Model.card_row :=
  map Model.as_row (order_by_id (select_where c_deck_id deck_id (cards (working w)))).

Definition deck_listing (w : world) : list (Z * string) :=
  map (fun r => (d_id r, d_name r)) (order_by_name (decks (working w))).

(** The rows of [all_decks] do not go down in name. *)
Definition by_name (a b : Z * string) : Prop := String.leb (snd a) (snd b) = true.

(** ** Runs of a study session *)

(** The Correct and Incorrect buttons pressed in the order of [answers]
    ([true] for Correct). *)
Fixpoint answer (answers : list bool) (s : StudyWindow.t * world)
  : StudyWindow.t * world :=
  match answers with
  | [] => s
  | correct :: rest => answer rest (snd (StudyWindow.mark correct s))
  end.

(** How many of the answers were right. *)
Definition right_answers (answers : list bool) : nat :=
  List.length (filter (fun correct => correct) answers).

(** A window as [next_card] leaves it on a card: the front is shown. *)
Definition shows_front (win : StudyWindow.t) (cur : StudyWindow.entry) : Prop :=
  StudyWindow.current win = Some cur /\
  StudyWindow.back_shown win = false /\
  StudyWindow.front_lbl win = StudyWindow.or_empty (StudyWindow.e_front cur).

(** ** class App *)

(** [str.strip()] on a text of characters below 256: the characters
    Python takes for white space there are 9 to 13, 28 to 32, 133 and 160. *)
Definition is_space (ch : ascii) : bool :=
  let n := nat_of_ascii ch in
  ((9 <=? n) && (n <=? 13) || (28 <=? n) && (n <=? 32) || (n =? 133) || (n =? 160))%nat.

Fixpoint lstrip (s : string) : string :=
  match s with
  | EmptyString => EmptyString
  | String ch rest => if is_space ch then lstrip rest else s
  end.

Fixpoint rstrip (s : string) : string :=
  match s with
  | EmptyString => EmptyString
  | String ch rest =>
      match rstrip rest with
      | EmptyString => if is_space ch then EmptyString else String ch EmptyString
      | kept => String ch kept
      end
  end.

Definition py_strip (s : string) : string := rstrip (lstrip s).

(** [try: m except Exception as e: handler(e)] *)
Definition try_except {S A} (m : M S A) (handler : exn -> M S A) : M S A :=
  fun s => match m s with
           | (Ok a, s') => (Ok a, s')
           | (Raise e, s') => handler e s'
           end.

(** The Python side of the main window.  The widgets belong to Tk: what
    a handler reads from them (a listbox selection, the text of an editor,
    the answer to a dialog) is an argument of the handler here, and what it
    writes to them is not kept, but for the message boxes. *)
Module App.

Inductive dialog : Type :=
| ShowInfo (title message : string)
| ShowError (e : exn).

Record t : Type := mk {
  selected_deck_id : option Z;
  selected_card_id : option Z;
  decks : list (Z * string);
  cards : option (list Model.card_row);     (* None until load_cards has run *)
  study_queue : list StudyWindow.entry;
  dialogs : list dialog
}.

(** [if self.selected_deck_id], [if self.selected_card_id] *)
Definition chosen (id : option Z) : option Z :=
  match id with
  | Some n => if n =? 0 then None else Some n
  | None => None
  end.

(** [if name], on the answer of [askstring] *)
Definition given (answer : option string) : option string :=
  match answer with
  | Some text => if String.eqb text "" then None else Some text
  | None => None
  end.

Definition on_app (f : t -> t) : M (t * world) unit :=
  fun s => (Ok tt, (f (fst s), snd s)).

Definition on_model {A} (m : M world A) : M (t * world) A :=
  fun s => let (r, w') := m (snd s) in (r, (fst s, w')).

Definition self : M (t * world) t := fun s => (Ok (fst s), s).

Definition showinfo (title message : string) : M (t * world) unit :=
  on_app (fun a => mk (selected_deck_id a) (selected_card_id a) (decks a) (cards a)
                      (study_queue a) (dialogs a ++ [ShowInfo title message])).

Definition showerror (e : exn) : M (t * world) unit :=
  on_app (fun a => mk (selected_deck_id a) (selected_card_id a) (decks a) (cards a)
                      (study_queue a) (dialogs a ++ [ShowError e])).

Definition set_selected_deck_id (v : option Z) : M (t * world) unit :=
  on_app (fun a => mk v (selected_card_id a) (decks a) (cards a)
                      (study_queue a) (dialogs a)).

Definition set_selected_card_id (v : option Z) : M (t * world) unit :=
  on_app (fun a => mk (selected_deck_id a) v (decks a) (cards a)
                      (study_queue a) (dialogs a)).

(** [rows[i]].  Past the end Python raises IndexError, which no handler
    catches; it is carried here as a [ValueError] with Python's message.
    A listbox built from [rows] reports no such index. *)
Definition item {A} (rows : list A) (i : nat) : M (t * world) A :=
  match nth_error rows i with
  | Some row => ret row
  | None => raise (ValueError "list index out of range")
  end.

Definition load_decks : M (t * world) unit :=
  rows <- on_model Model.all_decks ;;
  on_app (fun a => mk (selected_deck_id a) (selected_card_id a) rows (cards a)
                      (study_queue a) (dialogs a)).

(** [load_cards(deck_id)]; with [None] for an id the WHERE clause compares
    with NULL and selects nothing. *)
Definition load_cards (deck_id : option Z) : M (t * world) unit :=
  rows <- match deck_id with
          | Some id => on_model (Model.cards_in_deck id)
          | None => ret []
          end ;;
  on_app (fun a => mk (selected_deck_id a) (selected_card_id a) (decks a) (Some rows)
                      (study_queue a) (dialogs a)).

(** [__init__] *)
Definition init (w : world) : t * world :=
  snd (load_decks (mk None None [] None [] [], w)).

Definition add_deck (answer : option string) : M (t * world) unit :=
  match given answer with
  | Some name => on_model (Model.add_deck (JStr name)) ;; load_decks
  | None => ret tt
  end.

Definition rename_deck (sel : option nat) (answer : option string) : M (t * world) unit :=
  match sel with
  | None => showinfo "Info" "Select a deck first"
  | Some i =>
      a <- self ;;
      row <- item (decks a) i ;;
      match given answer with
      | Some new_name =>
          on_model (Model.rename_deck (fst row) (JStr new_name)) ;; load_decks
      | None => ret tt
      end
  end.

Definition delete_deck (sel : option nat) (yes : bool) : M (t * world) unit :=
  match sel with
  | None => showinfo "Info" "Select a deck first"
  | Some i =>
      a <- self ;;
      row <- item (decks a) i ;;
      if yes
      then on_model (Model.delete_deck (fst row)) ;;
           set_selected_deck_id None ;;
           load_decks
      else ret tt
  end.

Definition on_deck_select (sel : option nat) : M (t * world) unit :=
  match sel with
  | None => ret tt
  | Some i =>
      a <- self ;;
      row <- item (decks a) i ;;
      set_selected_deck_id (Some (fst row)) ;;
      load_cards (Some (fst row))
  end.

Definition on_card_select (sel : option nat) : M (t * world) unit :=
  match sel with
  | None => ret tt
  | Some i =>
      a <- self ;;
      match cards a with
      | None => raise AttributeError
      | Some rows =>
          card <- item rows i ;;
          set_selected_card_id (Some (fst (fst (fst (fst card)))))
      end
  end.

Definition add_card (front_text back_text : string) : M (t * world) unit :=
  a <- self ;;
  match chosen (selected_deck_id a) with
  | None => showinfo "Info" "Select a deck first"
  | Some deck_id =>
      let front := py_strip front_text in
      let back := py_strip back_text in
      if String.eqb front "" && String.eqb back ""
      then showinfo "Info" "Card is empty"
      else on_model (Model.add_card deck_id (JStr front) (JStr back)) ;;
           load_cards (selected_deck_id a)
  end.

Definition update_card (front_text back_text : string) : M (t * world) unit :=
  a <- self ;;
  match chosen (selected_card_id a) with
  | None => showinfo "Info" "Select a card first"
  | Some card_id =>
      let front := py_strip front_text in
      let back := py_strip back_text in
      on_model (Model.update_card card_id (JStr front) (JStr back)) ;;
      load_cards (selected_deck_id a)
  end.

Definition delete_card (yes : bool) : M (t * world) unit :=
  a <- self ;;
  match chosen (selected_card_id a) with
  | None => showinfo "Info" "Select a card first"
  | Some card_id =>
      if yes
      then on_model (Model.delete_card card_id) ;;
           set_selected_card_id None ;;
           load_cards (selected_deck_id a)
      else ret tt
  end.

(** [path] is what the file dialog returned, empty when it was cancelled. *)
Definition export_deck (path : string) : M (t * world) unit :=
  a <- self ;;
  match chosen (selected_deck_id a) with
  | None => showinfo "Info" "Select a deck to export"
  | Some deck_id =>
      if String.eqb path "" then ret tt
      else try_except
             (on_model (Model.export_deck_json deck_id path) ;;
              showinfo "Exported" "Deck exported successfully")
             showerror
  end.

Definition import_deck (path : string) : M (t * world) unit :=
  if String.eqb path "" then ret tt
  else try_except
         (on_model (Model.import_deck_json path) ;;
          showinfo "Imported" "Deck imported successfully" ;;
          load_decks)
         showerror.

(** The result is the study window opened, if one is. *)
Definition start_study : M (t * world) (option StudyWindow.t) :=
  a <- self ;;
  match chosen (selected_deck_id a) with
  | None => showinfo "Info" "Select a deck to study" ;; ret None
  | Some deck_id =>
      rows <- on_model (Model.cards_in_deck deck_id) ;;
      match rows with
      | [] => showinfo "Info" "Selected deck has no cards" ;; ret None
      | _ =>
          on_app (fun a0 => mk (selected_deck_id a0) (selected_card_id a0) (decks a0)
                               (cards a0) (map study_entry rows) (dialogs a0)) ;;
          ret (Some (StudyWindow.init (map study_entry rows)))
      end
  end.

End App.

(** ** The running program *)

(** The main window, the study windows opened so far, and the store. *)
Record gui : Type := mkGui {
  main : App.t;
  windows : list StudyWindow.t;
  store : world
}.

(** What the user, or the machine around the program, can do next. *)
Inductive event : Type :=
| AddDeckClicked (answer : option string)
| RenameDeckClicked (sel : option nat) (answer : option string)
| DeleteDeckClicked (sel : option nat) (yes : bool)
| DeckSelected (sel : option nat)
| CardSelected (sel : option nat)
| AddCardClicked (front_text back_text : string)
| UpdateCardClicked (front_text back_text : string)
| DeleteCardClicked (yes : bool)
| ExportChosen (path : string)
| ImportChosen (path : string)
| StartStudyChosen
| FlipClicked (n : nat)
| MarkClicked (n : nat) (correct : bool)
| CloseClicked (n : nat)
| FilesChanged (fs : list (string * file))
| Relaunched.

(** A callback of the main window: Tk reports an exception it raises and
    goes on, so only the state it leaves matters. *)
Definition callback {A} (m : M (App.t * world) A) (g : gui) : gui :=
  let s := snd (m (main g, store g)) in mkGui (fst s) (windows g) (snd s).

Fixpoint replace_nth {A} (n : nat) (x : A) (l : list A) : list A :=
  match l, n with
  | [], _ => []
  | _ :: rest, O => x :: rest
  | y :: rest, S k => y :: replace_nth k x rest
  end.

(** A callback of the n-th study window; a window that was destroyed has
    no buttons left to press. *)
Definition window_callback (n : nat) (m : M (StudyWindow.t * world) unit) (g : gui) : gui :=
  match nth_error (windows g) n with
  | Some win =>
      if StudyWindow.destroyed win then g
      else let s := snd (m (win, store g)) in
           mkGui (main g) (replace_nth n (fst s) (windows g)) (snd s)
  | None => g
  end.

(** The Close button: [self.destroy]. *)
Definition close_window : M (StudyWindow.t * world) unit :=
  StudyWindow.on_window
    (fun win => (Ok tt, StudyWindow.mk (StudyWindow.queue win) (StudyWindow.current win)
                                       (StudyWindow.back_shown win)
                                       (StudyWindow.front_lbl win) true
                                       (StudyWindow.dialogs win))).

(** The program started on the database as it is on disk. *)
Definition launch (w : world) : gui :=
  let s := App.init (crash w) in mkGui (fst s) [] (snd s).

Definition handle (e : event) (g : gui) : gui :=
  match e with
  | AddDeckClicked answer => callback (App.add_deck answer) g
  | RenameDeckClicked sel answer => callback (App.rename_deck sel answer) g
  | DeleteDeckClicked sel yes => callback (App.delete_deck sel yes) g
  | DeckSelected sel => callback (App.on_deck_select sel) g
  | CardSelected sel => callback (App.on_card_select sel) g
  | AddCardClicked front_text back_text => callback (App.add_card front_text back_text) g
  | UpdateCardClicked front_text back_text =>
      callback (App.update_card front_text back_text) g
  | DeleteCardClicked yes => callback (App.delete_card yes) g
  | ExportChosen path => callback (App.export_deck path) g
  | ImportChosen path => callback (App.import_deck path) g
  | StartStudyChosen =>
      let (r, s) := App.start_study (main g, store g) in
      mkGui (fst s)
            (match r with
             | Ok (Some win) => windows g ++ [win]
             | _ => windows g
             end)
            (snd s)
  | FlipClicked n => window_callback n (StudyWindow.on_window StudyWindow.flip) g
  | MarkClicked n correct => window_callback n (StudyWindow.mark correct) g
  | CloseClicked n => window_callback n close_window g
  | FilesChanged fs =>
      mkGui (main g) (windows g)
            (mkWorld (durable (store g)) (working (store g)) fs
                     (clock (store g)) (ticks (store g)))
  | Relaunched => launch (store g)
  end.

(** The states of the program from its first start on a fresh database. *)
Inductive running : gui -> Prop :=
| run_start fs clk : running (launch (init_db fs clk))
| run_event g e : running g -> running (handle e g).

(** A run of the program: a deck is added and selected, a card is typed
    in and added. *)
Definition sample_run : gui :=
  handle (AddCardClicked " hola " "hello")
    (handle (DeckSelected (Some 0%nat))
       (handle (AddDeckClicked (Some "Spanish"))
          (launch (init_db [] sample_clock)))).

(** The run goes on: the deck is studied, and with the study window open
    on "hola" the card is selected in the main window and deleted. *)
Definition stale_entry_run : gui :=
  handle (DeleteCardClicked true)
    (handle (CardSelected (Some 0%nat))
       (handle StartStudyChosen sample_run)).

(** Then a card is added, and Correct is pressed in the study window. *)
Definition reissued_id_run : gui :=
  handle (MarkClicked 0 true)
    (handle (AddCardClicked "nuevo" "new") stale_entry_run).

(** The main window with deck 1 selected. *)
Definition deck_one_selected : App.t :=
  App.mk (Some 1) None [(1, "Spanish")] None [] [].

(** Every deck has a name that is not the empty text. *)
Definition named (d : db) : Prop := forall D, In D (decks d) -> d_name D <> "".

(** A call that cannot write an empty deck name: [add_deck] and
    [rename_deck] are given a name Python takes for true. *)
Definition names_decks (c : call) : Prop :=
  match c with
  | AddDeck name => truthy name = true
  | RenameDeck _ new_name => truthy new_name = true
  | _ => True
  end.

(** Every call but [delete_deck]. *)
Definition keeps_decks (c : call) : bool :=
  match c with
  | DeleteDeck _ => false
  | _ => true
  end.

(** What the main window remembers names decks that exist. *)
Definition known (a : App.t) (w : world) : Prop :=
  (forall row, In row (App.decks a) -> deck_exists (fst row) (working w) = true) /\
  (forall id, App.selected_deck_id a = Some id -> deck_exists id (working w) = true).

(** What holds of the store between two events. *)
Definition sound (w : world) : Prop :=
  synced w /\ no_orphans (working w) /\ named (working w).

(** A text of white space only. *)
Fixpoint blank (s : string) : bool :=
  match s with
  | EmptyString => true
  | String ch rest => is_space ch && blank rest
  end.

(** A text with no white space at either end. *)
Definition trimmed (s : string) : Prop := lstrip s = s /\ rstrip s = s.

(** A right answer recorded for each of [ids], in that order. *)
Definition record_all (ids : list Z) (w : world) : world :=
  fold_left (fun w0 id => snd (Model.record_result id true w0)) ids w.

(** ** Facts about the statements *)

Section Statements.
Context {R : Type} (id_of : R -> Z).

Lemma find_update_where_hit (id : Z) (f : R -> R) (rows : list R) (r : R) :
  (forall x, id_of (f x) = id_of x) ->
  find (fun x => id_of x =? id) rows = Some r ->
  find (fun x => id_of x =? id) (update_where id_of id f rows) = Some (f r).
Proof.
  intros Hid. induction rows as [|x rows IH]; simpl; [discriminate|].
  destruct (id_of x =? id) eqn:E; simpl.
  - intros [= ->]. now rewrite Hid, E.
  - rewrite E. exact IH.
Qed.

Lemma find_update_where_miss (id id' : Z) (f : R -> R) (rows : list R) :
  (forall x, id_of (f x) = id_of x) ->
  id' <> id ->
  find (fun x => id_of x =? id') (update_where id_of id f rows)
  = find (fun x => id_of x =? id') rows.
Proof.
  intros Hid Hne. induction rows as [|x rows IH]; simpl; [reflexivity|].
  destruct (id_of x =? id) eqn:E.
  - rewrite Hid. apply Z.eqb_eq in E.
    assert ((id_of x =? id') = false) as -> by (apply Z.eqb_neq; congruence).
    exact IH.
  - destruct (id_of x =? id'); [reflexivity | exact IH].
Qed.

Lemma update_where_ids (id : Z) (f : R -> R) (rows : list R) :
  (forall x, id_of (f x) = id_of x) ->
  map id_of (update_where id_of id f rows) = map id_of rows.
Proof.
  intros Hid. induction rows as [|x rows IH]; simpl; [reflexivity|].
  rewrite IH. destruct (id_of x =? id); now rewrite ?Hid.
Qed.

Lemma update_where_absent (id : Z) (f : R -> R) (rows : list R) :
  find (fun x => id_of x =? id) rows = None ->
  update_where id_of id f rows = rows.
Proof.
  induction rows as [|x rows IH]; simpl; [reflexivity|].
  destruct (id_of x =? id); [discriminate|].
  intros H. now rewrite IH.
Qed.

Lemma select_delete_where (v : Z) (rows : list R) :
  select_where id_of v (delete_where id_of v rows) = [].
Proof.
  induction rows as [|x rows IH]; simpl; [reflexivity|].
  destruct (id_of x =? v) eqn:E; simpl; [exact IH|].
  now rewrite E.
Qed.

Lemma select_delete_where_other (v v' : Z) (rows : list R) :
  v' <> v ->
  select_where id_of v' (delete_where id_of v rows) = select_where id_of v' rows.
Proof.
  intros Hne. induction rows as [|x rows IH]; simpl; [reflexivity|].
  destruct (id_of x =? v) eqn:E; simpl.
  - apply Z.eqb_eq in E.
    assert ((id_of x =? v') = false) as -> by (apply Z.eqb_neq; congruence).
    exact IH.
  - now rewrite IH.
Qed.

Lemma in_delete_where (v : Z) (rows : list R) (x : R) :
  In x (delete_where id_of v rows) <-> In x rows /\ id_of x <> v.
Proof.
  unfold delete_where. rewrite filter_In, negb_true_iff, Z.eqb_neq. tauto.
Qed.

End Statements.

Lemma set_card_text_id f b c : c_id (set_card_text f b c) = c_id c.
Proof. reflexivity. Qed.

(** ** Statistics *)

(** C1. [record_result] on a card that exists adds one to its seen_count,
    adds one to its correct_count exactly when [correct] holds, keeps every
    other field of the card, keeps every other card and every deck, adds or
    removes no row, and commits. *)
Theorem record_result_counts (w : world) (card_id : Z) (correct : bool) (C : card) :
  find_card card_id (working w) = Some C ->
  let (r, w') := Model.record_result card_id correct w in
  r = Ok tt /\
  (exists C',
      find_card card_id (working w') = Some C' /\
      c_seen_count C' = c_seen_count C + 1 /\
      c_correct_count C' = (if correct then c_correct_count C + 1 else c_correct_count C) /\
      c_id C' = c_id C /\ c_deck_id C' = c_deck_id C /\
      c_front C' = c_front C /\ c_back C' = c_back C /\
      c_created_at C' = c_created_at C) /\
  (forall other, other <> card_id ->
                 find_card other (working w') = find_card other (working w)) /\
  map c_id (cards (working w')) = map c_id (cards (working w)) /\
  decks (working w') = decks (working w) /\
  durable w' = working w'.
Proof.
  intros HC. unfold Model.record_result, bind, execute, commit, find_card in *.
  destruct correct; simpl.
  - split; [reflexivity|]. split; [|repeat split].
    + exists (bump_both C). split; [now apply find_update_where_hit|].
      repeat split; reflexivity.
    + intros other Hne. now apply find_update_where_miss.
    + now apply update_where_ids.
  - split; [reflexivity|]. split; [|repeat split].
    + exists (bump_seen C). split; [now apply find_update_where_hit|].
      repeat split; reflexivity.
    + intros other Hne. now apply find_update_where_miss.
    + now apply update_where_ids.
Qed.

(** The ids sqlite3 binds are the 64-bit integers. *)
Lemma bindable_id (n : Z) : bindable (JNum n) = true <-> - 2 ^ 63 <= n < 2 ^ 63.
Proof.
  unfold bindable, bind_param.
  destruct ((- 2 ^ 63 <=? n) && (n <? 2 ^ 63)) eqn:E.
  - apply andb_true_iff in E. destruct E as [Hlow Hhigh].
    apply Z.leb_le in Hlow. apply Z.ltb_lt in Hhigh.
    split; [intros _; split; assumption | reflexivity].
  - split; [discriminate|]. intros [Hlow Hhigh].
    apply andb_false_iff in E.
    destruct E as [E | E]; [apply Z.leb_gt in E | apply Z.ltb_ge in E]; lia.
Qed.

(** C10, as the code has it.  [record_result] on an id that sqlite3 binds
    and that no card has returns normally and, with no statement pending,
    leaves the whole state as it was.  An entry of a running study session
    whose card was deleted is in that case only until a new card is given
    the id. *)
Theorem record_result_absent (w : world) (card_id : Z) (correct : bool) :
  bindable (JNum card_id) = true ->
  synced w ->
  find_card card_id (working w) = None ->
  Model.record_result card_id correct w = (Ok tt, w).
Proof.
  unfold synced, find_card. intros _ Hs Hnone.
  unfold Model.record_result, bind, execute, commit.
  destruct correct; simpl;
    rewrite (update_where_absent c_id _ _ _ Hnone);
    destruct w as [du wo fs clk tk]; simpl in *; subst du;
    destruct wo; reflexivity.
Qed.

(** C9. [update_card] keeps the decks, keeps every card with another id,
    adds or removes no row, and on the card with the given id keeps id,
    deck_id, both counters and created_at; when it returns normally the
    card's front and back are the bound texts and the change is committed. *)
Theorem update_card_frame (w : world) (card_id : Z) (front back : json) :
  let (r, w') := Model.update_card card_id front back w in
  decks (working w') = decks (working w) /\
  map c_id (cards (working w')) = map c_id (cards (working w)) /\
  (forall other, other <> card_id ->
                 find_card other (working w') = find_card other (working w)) /\
  (forall C, find_card card_id (working w) = Some C ->
     exists C',
       find_card card_id (working w') = Some C' /\
       c_id C' = c_id C /\ c_deck_id C' = c_deck_id C /\
       c_correct_count C' = c_correct_count C /\
       c_seen_count C' = c_seen_count C /\
       c_created_at C' = c_created_at C /\
       (r = Ok tt ->
        exists f b, bind_param front = Ok f /\ bind_param back = Ok b /\
                    c_front C' = text_affinity f /\ c_back C' = text_affinity b)) /\
  (r = Ok tt -> durable w' = working w') /\
  (r <> Ok tt -> w' = w).
Proof.
  unfold Model.update_card, bind, lift_outcome, execute, commit, find_card.
  destruct (bind_param front) as [f|e] eqn:Ef;
    [destruct (bind_param back) as [b|e] eqn:Eb|]; simpl.
  - repeat split.
    + now apply update_where_ids.
    + intros other Hne. now apply find_update_where_miss.
    + intros C HC. exists (set_card_text (text_affinity f) (text_affinity b) C).
      split; [now apply find_update_where_hit|].
      repeat split. intros _. exists f, b. repeat split.
    + congruence.
  - repeat split; try congruence.
    intros C HC. exists C. repeat split; try assumption. discriminate.
  - repeat split; try congruence.
    intros C HC. exists C. repeat split; try assumption. discriminate.
Qed.

(** ** The study session *)

Import StudyWindow.

(** One [mark] with a current entry: the result goes to the store, the
    entry is put back at the end of the queue only when the answer was
    wrong, and the window moves to the head of what is then queued, or
    closes when nothing is. *)
Lemma mark_step (win : StudyWindow.t) (w : world) (cur : entry) (correct : bool) :
  current win = Some cur ->
  mark correct (win, w) =
  (Ok tt,
   (match (if correct then queue win else queue win ++ [cur]) with
    | [] => mk [] (Some cur) (back_shown win) (front_lbl win) true
               (dialogs win ++ ["You finished the queue!"])
    | head :: rest => mk rest (Some head) false (or_empty (e_front head))
                         (destroyed win) (dialogs win)
    end,
    snd (Model.record_result (e_id cur) correct w))).
Proof.
  intros Hcur. unfold mark. simpl. rewrite Hcur.
  unfold bind, on_model, on_window, Model.record_result, execute, commit, ret, requeue,
    next_card, bind. simpl.
  destruct correct; simpl.
  - rewrite Hcur. destruct (queue win); reflexivity.
  - rewrite Hcur. destruct (queue win ++ [cur]); reflexivity.
Qed.

(** With every answer right, a window that shows a card and has [q] more
    queued stays open for [List.length q] presses and closes on the next. *)
Lemma press_true_run (q : list entry) :
  forall (win : StudyWindow.t) (w : world) (cur : entry),
    queue win = q -> current win = Some cur -> destroyed win = false ->
    (forall k, (k <= List.length q)%nat ->
               destroyed (fst (press k true (win, w))) = false) /\
    destroyed (fst (press (S (List.length q)) true (win, w))) = true /\
    queue (fst (press (S (List.length q)) true (win, w))) = [].
Proof.
  induction q as [|e q IH]; intros win w cur Hq Hcur Hd.
  - split.
    + intros k Hk. simpl in Hk. assert (k = 0%nat) as -> by lia. exact Hd.
    + simpl. rewrite (mark_step _ _ _ _ Hcur), Hq. simpl. split; reflexivity.
  - pose proof (mark_step win w cur true Hcur) as Hm. rewrite Hq in Hm.
    split.
    + intros [|k] Hk; [exact Hd|].
      simpl. rewrite Hm. simpl.
      eapply IH; [reflexivity | reflexivity | exact Hd | simpl in Hk; lia].
    + change (press (S (List.length (e :: q))) true (win, w))
        with (press (S (List.length q)) true (snd (mark true (win, w)))).
      rewrite Hm. simpl snd.
      eapply IH; [reflexivity | reflexivity | exact Hd].
Qed.

(** C2. A [mark] with a current entry returns normally, hands the result
    to [record_result], drops the entry when the answer was right and
    appends it to the queue when it was wrong, then shows the front of the
    next queued entry with the flip flag cleared, or closes the window when
    nothing is queued.  A window opened on N entries and answered right
    every time is still open after fewer than N presses and is closed,
    with an empty queue, after N. *)
Theorem mark_requeues_and_advances :
  (forall (win : StudyWindow.t) (w : world) (cur : entry) (correct : bool),
      current win = Some cur ->
      let (r, s') := mark correct (win, w) in
      r = Ok tt /\
      snd s' = snd (Model.record_result (e_id cur) correct w) /\
      match (if correct then queue win else queue win ++ [cur]) with
      | [] =>
          queue (fst s') = [] /\ destroyed (fst s') = true /\
          dialogs (fst s') = dialogs win ++ ["You finished the queue!"]
      | head :: rest =>
          queue (fst s') = rest /\ current (fst s') = Some head /\
          back_shown (fst s') = false /\
          front_lbl (fst s') = or_empty (e_front head) /\
          destroyed (fst s') = destroyed win
      end) /\
  (forall (entries : list entry) (w : world),
      (forall k, (k < List.length entries)%nat ->
                 destroyed (fst (press k true (init entries, w))) = false) /\
      destroyed (fst (press (List.length entries) true (init entries, w))) = true /\
      queue (fst (press (List.length entries) true (init entries, w))) = []).
Proof.
  split.
  - intros win w cur correct Hcur. rewrite (mark_step _ _ _ _ Hcur).
    split; [reflexivity|]. split; [reflexivity|].
    destruct (if correct then queue win else queue win ++ [cur]); simpl; repeat split.
  - intros [|e q] w.
    + simpl. split; [intros k Hk; lia | split; reflexivity].
    + destruct (press_true_run q (init (e :: q)) w e) as (Hopen & Hclosed & Hempty);
        try reflexivity.
      split; [|split; assumption].
      intros k Hk. apply Hopen. simpl in Hk. lia.
Qed.

(** ** Deleting a deck *)

(** C3. For a deck id that sqlite3 binds, [delete_deck] returns normally
    and commits; afterwards the deck has no row, [cards_in_deck] of it is
    empty, no card anywhere still carries its id, and the listing of every
    other deck is what it was.  The two DELETEs become durable together:
    a process that dies after any number of the method's statements
    restarts on the database of before the call or on the one of after
    it. *)
Theorem delete_deck_cascades (w : world) (deck_id : Z) :
  bindable (JNum deck_id) = true ->
  let (r, w') := Model.delete_deck deck_id w in
  r = Ok tt /\
  fst (Model.cards_in_deck deck_id w') = Ok [] /\
  find_deck deck_id (working w') = None /\
  (forall c, In c (cards (working w')) -> c_deck_id c <> deck_id) /\
  (forall other, bindable (JNum other) = true -> other <> deck_id ->
     fst (Model.cards_in_deck other w') = fst (Model.cards_in_deck other w)) /\
  durable w' = working w' /\
  (forall k,
     let restarted :=
       crash (snd (run_all (firstn k (Model.delete_deck_body deck_id)) w)) in
     working restarted = durable w \/ working restarted = durable w').
Proof.
  intros _.
  unfold Model.delete_deck, Model.delete_deck_body, Model.cards_in_deck, query,
    find_deck. simpl.
  unfold bind, execute, commit, ret. simpl.
  split; [reflexivity|]. split; [|split; [|split; [|split; [|split]]]].
  - now rewrite select_delete_where.
  - induction (decks (working w)) as [|x rows IH]; simpl; [reflexivity|].
    destruct (d_id x =? deck_id) eqn:E; simpl; [exact IH|]. now rewrite E.
  - intros c Hc. now apply in_delete_where in Hc.
  - intros other _ Hne. now rewrite select_delete_where_other.
  - reflexivity.
  - intros [|[|[|[|k]]]]; simpl; auto.
Qed.

(** ** Listing and exporting *)

Lemma order_by_id_sorted (rows : list card) :
  StronglySorted Z.lt (map c_id rows) -> order_by_id rows = rows.
Proof.
  induction rows as [|c rows IH]; simpl; [reflexivity|].
  intros Hs. inversion Hs as [|? ? Hrest Hall]; subst.
  rewrite (IH Hrest). destruct rows as [|x rows]; simpl; [reflexivity|].
  inversion Hall as [|? ? Hlt _]; subst.
  assert ((c_id c <=? c_id x) = true) as -> by (apply Z.leb_le; lia).
  reflexivity.
Qed.

Lemma filter_keeps_order {R} (id_of : R -> Z) (p : R -> bool) (rows : list R) :
  StronglySorted Z.lt (map id_of rows) ->
  StronglySorted Z.lt (map id_of (filter p rows)).
Proof.
  induction rows as [|x rows IH]; simpl; [constructor|].
  intros Hs. inversion Hs as [|? ? Hrest Hall]; subst.
  destruct (p x); simpl; [|now apply IH].
  constructor; [now apply IH|].
  rewrite Forall_forall in *. intros y Hy. apply Hall.
  rewrite in_map_iff in *. destruct Hy as (z & <- & Hz).
  exists z. split; [reflexivity|]. now apply filter_In in Hz.
Qed.

(** C6. On a table in rowid order, exporting an existing deck to a path
    that can be written returns normally and writes a payload whose cards
    array follows [cards_in_deck]: position by position the two show the
    same row of the table, and the ids of those rows increase. *)
Theorem export_follows_cards_in_deck
  (w : world) (deck_id : Z) (path name : string) :
  rowid_ordered (working w) ->
  Model.deck_name_of deck_id (working w) = Some name ->
  lookup_file path (files w) <> Some Forbidden ->
  let (r, w') := Model.export_deck_json deck_id path w in
  r = Ok tt /\
  exists rows : list card,
    Forall (fun c => In c (cards (working w)) /\ c_deck_id c = deck_id) rows /\
    StronglySorted Z.lt (map c_id rows) /\
    fst (Model.cards_in_deck deck_id w) = Ok (map Model.as_row rows) /\
    lookup_file path (files w') =
      Some (JsonText (JObj [ ("name", JStr name);
                             ("exported_at", JStr (clock w (ticks w)));
                             ("cards", JArr (map Model.export_card rows)) ])).
Proof.
  intros [_ Hcards] Hname Hpath.
  unfold Model.export_deck_json, Model.cards_in_deck, bind, query, now_isoformat,
    write_json, raise.
  rewrite Hname. simpl.
  set (rows := select_where c_deck_id deck_id (cards (working w))).
  assert (Hsorted : StronglySorted Z.lt (map c_id rows))
    by (apply filter_keeps_order; exact Hcards).
  assert (Hwritten : forall doc,
             lookup_file path ((path, JsonText doc) :: files w) = Some (JsonText doc))
    by (intros doc; simpl; now rewrite String.eqb_refl).
  destruct (lookup_file path (files w)) as [[| | |doc]|] eqn:E; simpl;
    try (exfalso; apply Hpath; reflexivity);
    (split; [reflexivity|]; exists rows; repeat split;
     [ apply Forall_forall; intros c Hc; apply filter_In in Hc;
       destruct Hc as [Hin Heq]; split; [exact Hin | now apply Z.eqb_eq]
     | exact Hsorted
     | now rewrite (order_by_id_sorted rows Hsorted)
     | now rewrite String.eqb_refl ]).
Qed.

(** ** Rowids *)

Lemma fold_max_bounds (rest : list Z) :
  forall x, x <= fold_left Z.max rest x /\
            Forall (fun y => y <= fold_left Z.max rest x) rest.
Proof.
  induction rest as [|y rest IH]; intros x; simpl.
  - split; [lia | constructor].
  - destruct (IH (Z.max x y)) as [Hx Hall]. split; [lia|].
    constructor; [lia | exact Hall].
Qed.

Lemma next_rowid_above (ids : list Z) :
  Forall (fun x => x < next_rowid ids) ids.
Proof.
  destruct ids as [|x rest]; [constructor|].
  unfold next_rowid. destruct (fold_max_bounds rest x) as [Hx Hall].
  constructor; [lia|].
  eapply Forall_impl; [|exact Hall]. simpl. intros; lia.
Qed.

Lemma next_rowid_snoc (ids : list Z) :
  next_rowid (ids ++ [next_rowid ids]) = next_rowid ids + 1.
Proof.
  destruct ids as [|x rest]; [reflexivity|].
  simpl. rewrite fold_left_app. simpl. lia.
Qed.

Lemma find_snoc_fresh {R} (id_of : R -> Z) (id : Z) (rows : list R) (r : R) :
  Forall (fun x => x < id) (map id_of rows) -> id_of r = id ->
  find (fun x => id_of x =? id) (rows ++ [r]) = Some r.
Proof.
  intros Hall Hr. induction rows as [|x rows IH]; simpl.
  - now rewrite Hr, Z.eqb_refl.
  - inversion Hall as [|? ? Hlt Hrest]; subst.
    assert ((id_of x =? id_of r) = false) as -> by (apply Z.eqb_neq; lia).
    now apply IH.
Qed.

Lemma snoc_keeps_order (ids : list Z) :
  StronglySorted Z.lt ids -> StronglySorted Z.lt (ids ++ [next_rowid ids]).
Proof.
  intros Hs. pose proof (next_rowid_above ids) as Hfresh.
  induction Hs as [|x rest Hrest IH Hall]; simpl.
  - repeat constructor.
  - set (n := next_rowid (x :: rest)) in *.
    inversion Hfresh as [|? ? Hx Hr]; subst.
    assert (Hgen : forall l, StronglySorted Z.lt l -> Forall (fun y => y < n) l ->
                             StronglySorted Z.lt (l ++ [n])).
    { clear. intros l Hl. induction Hl as [|y l Hl IHl Hy]; simpl; intros Hn.
      - repeat constructor.
      - inversion Hn; subst. constructor; [now apply IHl|].
        apply Forall_app. split; [exact Hy | repeat constructor; assumption]. }
    constructor; [now apply Hgen|].
    apply Forall_app. split; [exact Hall | repeat constructor; exact Hx].
Qed.

(** ** What every history keeps *)

Section Keeps.
Context (I : world -> Prop).

Lemma keeps_bind {A B} (m : M world A) (k : A -> M world B) :
  keeps I m -> (forall a, keeps I (k a)) -> keeps I (bind m k).
Proof.
  intros Hm Hk w Hw. unfold bind. specialize (Hm w Hw).
  destruct (m w) as [[a|e] w1]; simpl in *; [now apply Hk | exact Hm].
Qed.

Lemma keeps_ret {A} (a : A) : keeps I (ret a).
Proof. intros w Hw. exact Hw. Qed.

Lemma keeps_raise {A} (e : exn) : keeps I (@raise world A e).
Proof. intros w Hw. exact Hw. Qed.

Lemma keeps_lift_outcome {A} (o : outcome A) : keeps I (lift_outcome o).
Proof. intros w Hw. exact Hw. Qed.

Lemma keeps_query {A} (sel : db -> A) : keeps I (query sel).
Proof. intros w Hw. exact Hw. Qed.

Lemma keeps_import_cards (deck_id : Z) (items : list json) :
  (forall front back, keeps I (Model.add_card deck_id front back)) ->
  keeps I (Model.import_cards deck_id items).
Proof.
  intros Hadd. induction items as [|item items IH]; simpl.
  - apply keeps_ret.
  - apply keeps_bind; [|intros _; exact IH].
    unfold Model.import_card.
    repeat (apply keeps_bind; [apply keeps_lift_outcome | intros ?]).
    apply Hadd.
Qed.

Lemma keeps_import (path : string) :
  keeps I (read_json path) -> keeps I now_isoformat ->
  (forall name, keeps I (Model.add_deck name)) ->
  (forall deck_id front back, keeps I (Model.add_card deck_id front back)) ->
  keeps I (Model.import_deck_json path).
Proof.
  intros Hread Hnow Hdeck Hcard. unfold Model.import_deck_json.
  apply keeps_bind; [exact Hread | intros payload].
  apply keeps_bind; [apply keeps_lift_outcome | intros given].
  apply keeps_bind.
  { destruct (truthy given); [apply keeps_ret|].
    apply keeps_bind; [exact Hnow | intros; apply keeps_ret]. }
  intros name. apply keeps_bind; [apply Hdeck | intros deck_id].
  apply keeps_bind; [apply keeps_lift_outcome | intros listed].
  apply keeps_bind; [apply keeps_lift_outcome | intros items].
  apply keeps_bind; [|intros; apply keeps_ret].
  apply keeps_import_cards. intros. apply Hcard.
Qed.

End Keeps.

(** No call leaves a statement uncommitted. *)
Ltac run_method :=
  unfold keeps, Model.all_decks, Model.add_deck, Model.rename_deck, Model.delete_deck,
    Model.delete_deck_body, Model.cards_in_deck, Model.add_card, Model.update_card,
    Model.delete_card, Model.record_result, Model.export_deck_json,
    Model.insert_deck, Model.insert_card,
    run_all, bind, lift_outcome, now_isoformat, query, execute, commit, ret, raise,
    read_json, write_json;
  intros;
  repeat match goal with
         | |- context [match bind_param ?v with _ => _ end] => destruct (bind_param v)
         | |- context [match text_affinity ?v with _ => _ end] => destruct (text_affinity v)
         | |- context [match lookup_file ?p ?fs with _ => _ end] =>
             destruct (lookup_file p fs) as [[| | |?]|]
         | |- context [match Model.deck_name_of ?d ?x with _ => _ end] =>
             destruct (Model.deck_name_of d x)
         | |- context [if existsb ?f ?l then _ else _] => destruct (existsb f l)
         | correct : bool |- _ => destruct correct
         end;
  simpl.

Lemma calls_keep_synced (c : call) (w : world) : synced w -> synced (perform c w).
Proof.
  destruct c; unfold perform; revert w.
  1-10: (run_method; solve [assumption | reflexivity]).
  change (keeps synced (Model.import_deck_json path)).
  apply keeps_import; try (intros; run_method; solve [assumption | reflexivity]).
Qed.

Lemma reachable_synced (w : world) : reachable w -> synced w.
Proof.
  induction 1 as [fs clk | w c _ IH]; [reflexivity | now apply calls_keep_synced].
Qed.

(** No call disturbs the rowid order of the tables. *)
Lemma update_keeps_order {R} (id_of : R -> Z) (id : Z) (f : R -> R) (rows : list R) :
  (forall x, id_of (f x) = id_of x) ->
  StronglySorted Z.lt (map id_of rows) ->
  StronglySorted Z.lt (map id_of (update_where id_of id f rows)).
Proof. intros Hid. now rewrite update_where_ids. Qed.

Lemma insert_keeps_order {R} (id_of : R -> Z) (rows : list R) (r : R) :
  id_of r = next_rowid (map id_of rows) ->
  StronglySorted Z.lt (map id_of rows) ->
  StronglySorted Z.lt (map id_of (rows ++ [r])).
Proof.
  intros Hid Hs. rewrite map_app. simpl. rewrite Hid. now apply snoc_keeps_order.
Qed.

Lemma calls_keep_order (c : call) (w : world) : ordered w -> ordered (perform c w).
Proof.
  assert (Hdeck : forall name, keeps ordered (Model.add_deck name)).
  { run_method; try assumption.
    destruct H as [[Hd Hc] _]. repeat split; simpl; try assumption;
      now apply insert_keeps_order. }
  assert (Hcard : forall deck_id front back,
             keeps ordered (Model.add_card deck_id front back)).
  { run_method; try assumption.
    destruct H as [[Hd Hc] _]. repeat split; simpl; try assumption;
      now apply insert_keeps_order. }
  destruct c; unfold perform.
  - intros H; exact H.
  - apply Hdeck.
  - revert w. run_method; try assumption;
      destruct H as [[Hd Hc] Hdur]; repeat split; simpl; try assumption;
      now apply update_keeps_order.
  - revert w. run_method.
    destruct H as [[Hd Hc] Hdur]; repeat split; simpl;
      now apply filter_keeps_order.
  - intros H; exact H.
  - apply Hcard.
  - revert w. run_method; try assumption;
      destruct H as [[Hd Hc] Hdur]; repeat split; simpl; try assumption;
      now apply update_keeps_order.
  - revert w. run_method.
    destruct H as [[Hd Hc] Hdur]; repeat split; simpl; try assumption;
      now apply filter_keeps_order.
  - revert w. run_method;
      destruct H as [[Hd Hc] Hdur]; repeat split; simpl; try assumption;
      now apply update_keeps_order.
  - revert w. run_method; assumption.
  - revert w. change (keeps ordered (Model.import_deck_json path)).
    apply keeps_import; try assumption; run_method; assumption.
Qed.

Lemma reachable_ordered (w : world) : reachable w -> rowid_ordered (working w).
Proof.
  intros Hr. enough (ordered w) as [H _] by exact H.
  induction Hr as [fs clk | w c _ IH].
  - repeat split; constructor.
  - now apply calls_keep_order.
Qed.

(** ** Importing, step by step *)

Lemma add_deck_text (text : string) (w : world) :
  Model.add_deck (JStr text) w
  = (Ok (next_rowid (map d_id (decks (working w)))), after_add_deck text w).
Proof. reflexivity. Qed.

Lemma import_card_ok (deck_id : Z) (item : json) (w : world) :
  importable_card item = true ->
  Model.import_card deck_id item w
  = (Ok (next_rowid (map c_id (cards (working w)))),
     after_import_cards deck_id [item] w).
Proof.
  destruct item as [| | | | |fields]; try discriminate.
  unfold importable_card, bindable, Model.import_card, Model.add_card,
    after_import_cards, bind, lift_outcome. simpl.
  unfold field_text, py_get.
  intros H. apply andb_true_iff in H. destruct H as [Hf Hb].
  replace (ticks w + 1)%nat with (S (ticks w)) by lia.
  destruct (dict_get "front" fields) as [vf|], (dict_get "back" fields) as [vb|];
    simpl in *;
    repeat match goal with
           | H : match bind_param ?v with _ => _ end = true |- _ =>
               destruct (bind_param v); [clear H | discriminate H]
           end;
    reflexivity.
Qed.

Lemma import_cards_ok (deck_id : Z) (items : list json) :
  forall w, synced w ->
            forallb importable_card items = true ->
            Model.import_cards deck_id items w
            = (Ok tt, after_import_cards deck_id items w).
Proof.
  induction items as [|item items IH]; intros w Hs Hall.
  - unfold after_import_cards. simpl. rewrite app_nil_r, Nat.add_0_r.
    destruct w as [du wo fs clk tk]. unfold synced in Hs. simpl in *. subst du.
    destruct wo. reflexivity.
  - simpl in Hall. apply andb_true_iff in Hall. destruct Hall as [Hitem Hrest].
    simpl. unfold bind. rewrite (import_card_ok _ _ _ Hitem).
    rewrite IH; [|reflexivity | exact Hrest].
    unfold after_import_cards. simpl.
    rewrite map_app. simpl. rewrite next_rowid_snoc, <- app_assoc. simpl.
    replace (ticks w + 1 + List.length items)%nat
      with (ticks w + S (List.length items))%nat by lia.
    replace (ticks w + 1)%nat with (S (ticks w)) by lia.
    reflexivity.
Qed.

Lemma after_add_deck_synced name w : synced (after_add_deck name w).
Proof. reflexivity. Qed.

Lemma importable_listed (fields : list (string * json)) :
  importable_cards fields = true ->
  exists listed,
    py_get (JObj fields) "cards" (JArr []) = Ok listed /\
    py_iter listed = Ok (listed_cards fields) /\
    forallb importable_card (listed_cards fields) = true.
Proof.
  unfold importable_cards, listed_cards, py_get.
  destruct (dict_get "cards" fields) as [listed|].
  - destruct (py_iter listed) as [items|e] eqn:E; [|discriminate].
    intros H. exists listed. auto.
  - intros _. exists (JArr []). auto.
Qed.

(** A payload with a non-empty string for a name. *)
Lemma import_named (w : world) (path : string) (fields : list (string * json))
      (s : string) :
  lookup_file path (files w) = Some (JsonText (JObj fields)) ->
  importable_cards fields = true ->
  dict_get "name" fields = Some (JStr s) -> s <> "" ->
  Model.import_deck_json path w
  = (Ok (next_rowid (map d_id (decks (working w)))),
     after_import_cards (next_rowid (map d_id (decks (working w))))
                        (listed_cards fields) (after_add_deck s w)).
Proof.
  intros Hfile Hcards Hname Hs.
  destruct (importable_listed fields Hcards) as (listed & Hget & Hiter & Hall).
  unfold Model.import_deck_json, bind, read_json, lift_outcome.
  rewrite Hfile. unfold py_get at 1. rewrite Hname.
  assert (truthy (JStr s) = true) as ->.
  { simpl. apply negb_true_iff, String.eqb_neq. exact Hs. }
  unfold ret at 1. rewrite add_deck_text, Hget, Hiter.
  rewrite import_cards_ok; [reflexivity | apply after_add_deck_synced | exact Hall].
Qed.

(** A payload with no name, or one Python takes for false. *)
Lemma import_default_name (w : world) (path : string) (fields : list (string * json)) :
  lookup_file path (files w) = Some (JsonText (JObj fields)) ->
  importable_cards fields = true ->
  absent_or_empty (dict_get "name" fields) = true ->
  Model.import_deck_json path w
  = (Ok (next_rowid (map d_id (decks (working w)))),
     after_import_cards (next_rowid (map d_id (decks (working w))))
                        (listed_cards fields)
                        (after_add_deck ("Deck " ++ clock w (ticks w))%string (tick w))).
Proof.
  intros Hfile Hcards Hname.
  destruct (importable_listed fields Hcards) as (listed & Hget & Hiter & Hall).
  unfold Model.import_deck_json, bind, read_json, lift_outcome.
  rewrite Hfile. unfold py_get at 1.
  assert (Hfalse : forall v, dict_get "name" fields = Some v -> truthy v = false).
  { intros v Hv. rewrite Hv in Hname. now apply negb_true_iff in Hname. }
  destruct (dict_get "name" fields) as [v|]; cbv beta iota;
    [rewrite (Hfalse v eq_refl) | change (truthy JNull) with false];
    cbv beta iota; unfold now_isoformat, ret; cbv beta iota;
    change (mkWorld (durable w) (working w) (files w) (clock w) (S (ticks w)))
      with (tick w);
    rewrite add_deck_text, Hget, Hiter;
    (rewrite import_cards_ok; [reflexivity | apply after_add_deck_synced | exact Hall]).
Qed.



(** ** Payloads an import does not get through *)





Lemma find_none_fresh {R} (id_of : R -> Z) (id : Z) (rows : list R) :
  Forall (fun x => x < id) (map id_of rows) ->
  find (fun x => id_of x =? id) rows = None.
Proof.
  induction rows as [|x rows IH]; simpl; [reflexivity|].
  intros Hall. inversion Hall as [|? ? Hlt Hrest]; subst.
  assert ((id_of x =? id) = false) as -> by (apply Z.eqb_neq; lia).
  now apply IH.
Qed.

Lemma new_deck_found (w : world) (name stamp : string) (more : list card) :
  let id := next_rowid (map d_id (decks (working w))) in
  find_deck id (working w) = None /\
  find_deck id (mkDb (decks (working w) ++ [mkDeck id name stamp]) more)
  = Some (mkDeck id name stamp).
Proof.
  unfold find_deck. simpl. split.
  - apply find_none_fresh, next_rowid_above.
  - apply find_snoc_fresh; [apply next_rowid_above | reflexivity].
Qed.

(** ** The name of an imported deck *)



(** ** Sources an import refuses *)


(** ** Cards without a deck *)

(** C4 at a failing input.  On the empty store, [add_card] under deck id
    7 returns the new card's id and commits a card whose deck does not
    exist: the FOREIGN KEY clause of the schema is not in force. *)
Theorem add_card_without_deck :
  let (r, w') := Model.add_card 7 (JStr "hola") (JStr "hello") (init_db [] sample_clock) in
  r = Ok 1 /\
  decks (durable w') = [] /\
  cards (durable w') = [mkCard 1 7 (Some "hola") (Some "hello") 0 0 "t0"] /\
  ~ no_orphans (durable w').
Proof.
  simpl. repeat split.
  intros H. specialize (H _ (or_introl eq_refl)). discriminate H.
Qed.

(** C5 at a failing input.  With a card left under the id the next deck
    will get, the deck imported from the export of deck 1 lists two cards
    where deck 1 lists one. *)
Theorem roundtrip_adopts_stray_card :
  fst (stray_card_roundtrip (init_db [] sample_clock))
  = Ok ([ (1, Some "hola", Some "hello", 0, 0) ],
        [ (2, Some "stray", Some "card", 0, 0);
          (3, Some "hola", Some "hello", 0, 0) ]).
Proof. vm_compute. reflexivity. Qed.



(** ** Orphans come from [add_card] alone *)

Lemma exists_after_update {R} (id_of : R -> Z) (id v : Z) (f : R -> R) (rows : list R) :
  (forall x, id_of (f x) = id_of x) ->
  existsb (fun r => id_of r =? v) (update_where id_of id f rows)
  = existsb (fun r => id_of r =? v) rows.
Proof.
  intros Hid. induction rows as [|x rows IH]; simpl; [reflexivity|].
  rewrite IH. destruct (id_of x =? id); now rewrite ?Hid.
Qed.

Lemma exists_after_delete {R} (id_of : R -> Z) (id v : Z) (rows : list R) :
  v <> id ->
  existsb (fun r => id_of r =? v) (delete_where id_of id rows)
  = existsb (fun r => id_of r =? v) rows.
Proof.
  intros Hne. induction rows as [|x rows IH]; simpl; [reflexivity|].
  destruct (id_of x =? id) eqn:E; simpl; rewrite IH; [|reflexivity].
  apply Z.eqb_eq in E.
  assert ((id_of x =? v) = false) as -> by (apply Z.eqb_neq; congruence).
  reflexivity.
Qed.

Lemma in_update_where (id : Z) (f : card -> card) (rows : list card) (c : card) :
  (forall x, c_deck_id (f x) = c_deck_id x) ->
  In c (update_where c_id id f rows) ->
  exists c0, In c0 rows /\ c_deck_id c = c_deck_id c0.
Proof.
  intros Hf Hin. unfold update_where in Hin. apply in_map_iff in Hin.
  destruct Hin as (c0 & <- & Hin). exists c0. split; [exact Hin|].
  destruct (c_id c0 =? id); [apply Hf | reflexivity].
Qed.

Lemma no_orphans_more_decks (ds : list deck) (d : deck) (cs : list card) :
  no_orphans (mkDb ds cs) -> no_orphans (mkDb (ds ++ [d]) cs).
Proof.
  intros H c Hc. specialize (H c Hc). unfold deck_exists in *. simpl in *.
  rewrite existsb_app, H. reflexivity.
Qed.

Lemma no_orphans_more_cards (ds : list deck) (cs : list card) (c : card) :
  deck_exists (c_deck_id c) (mkDb ds cs) = true ->
  no_orphans (mkDb ds cs) -> no_orphans (mkDb ds (cs ++ [c])).
Proof.
  intros Hc H x Hx. simpl in Hx. apply in_app_or in Hx.
  destruct Hx as [Hx | [<- | []]]; [exact (H x Hx) | exact Hc].
Qed.

(** The invariant of the spec survives [add_card] when the deck exists. *)
Lemma add_card_to_existing_deck (w : world) (deck_id : Z) (front back : json) :
  deck_exists deck_id (working w) = true ->
  no_orphans (working w) ->
  no_orphans (working (snd (Model.add_card deck_id front back w))).
Proof.
  intros Hd H. revert w Hd H. run_method; try assumption.
  destruct (working w) as [ds cs]. now apply no_orphans_more_cards.
Qed.

Lemma add_deck_exists (name : json) (w : world) :
  no_orphans (working w) ->
  match Model.add_deck name w with
  | (Ok id, w') => no_orphans (working w') /\ deck_exists id (working w') = true
  | (Raise _, w') => no_orphans (working w')
  end.
Proof.
  revert w. run_method; try assumption.
  destruct (working w) as [ds cs]. split.
  - now apply no_orphans_more_decks.
  - unfold deck_exists. simpl. rewrite existsb_app. simpl.
    rewrite Z.eqb_refl. now rewrite orb_true_r.
Qed.

Lemma calls_keep_no_orphans (c : call) (w : world) :
  respects_decks c w ->
  no_orphans (working w) -> no_orphans (working (perform c w)).
Proof.
  destruct c; unfold perform, respects_decks; intros Hc.
  - intros H; exact H.
  - intros H. pose proof (add_deck_exists name w H) as Hpost.
    destruct (Model.add_deck name w) as [[id|e] w']; simpl; tauto.
  - revert w Hc. run_method; try assumption.
    intros x Hx. specialize (H x Hx). unfold deck_exists in *. simpl in *.
    now rewrite exists_after_update.
  - revert w Hc. run_method.
    intros x Hx. simpl in Hx. apply in_delete_where in Hx. destruct Hx as [Hx Hne].
    specialize (H x Hx). unfold deck_exists in *. simpl.
    now rewrite exists_after_delete.
  - intros H; exact H.
  - now apply add_card_to_existing_deck.
  - revert w Hc. run_method; try assumption.
    intros x Hx. simpl in Hx. apply in_update_where in Hx; [|reflexivity].
    destruct Hx as (c0 & Hin & ->). exact (H c0 Hin).
  - revert w Hc. run_method.
    intros x Hx. simpl in Hx. apply in_delete_where in Hx. exact (H x (proj1 Hx)).
  - revert w Hc. run_method;
      intros x Hx; simpl in Hx; (apply in_update_where in Hx; [|intros; reflexivity]);
      destruct Hx as (c0 & Hin & ->); exact (H c0 Hin).
  - revert w Hc. run_method; assumption.
  - intros H. clear Hc. revert w H.
    change (keeps (fun w0 : world => no_orphans (working w0))
                  (Model.import_deck_json path)).
    unfold Model.import_deck_json.
    apply keeps_bind; [run_method; assumption | intros payload].
    apply keeps_bind; [apply keeps_lift_outcome | intros given].
    apply keeps_bind.
    { destruct (truthy given); [apply keeps_ret|].
      apply keeps_bind; [run_method; assumption | intros; apply keeps_ret]. }
    intros name w Hw. unfold bind at 1.
    pose proof (add_deck_exists name w Hw) as Hpost.
    destruct (Model.add_deck name w) as [[id|e] w']; simpl; [|exact Hpost].
    destruct Hpost as [Hno Hex].
    set (J := fun w0 : world => no_orphans (working w0) /\
                                deck_exists id (working w0) = true).
    enough (HJ : J (snd ((listed <- lift_outcome (py_get payload "cards" (JArr [])) ;;
                          items <- lift_outcome (py_iter listed) ;;
                          Model.import_cards id items ;;
                          ret id) w'))) by apply HJ.
    revert w' Hno Hex.
    enough (HK : keeps J (listed <- lift_outcome (py_get payload "cards" (JArr [])) ;;
                          items <- lift_outcome (py_iter listed) ;;
                          Model.import_cards id items ;;
                          ret id))
      by (intros w' Hno Hex; apply HK; split; assumption).
    apply keeps_bind; [apply keeps_lift_outcome | intros listed].
    apply keeps_bind; [apply keeps_lift_outcome | intros items].
    apply keeps_bind; [|intros; apply keeps_ret].
    apply keeps_import_cards. intros front back w1 [Hno Hex]. split.
    + now apply add_card_to_existing_deck.
    + revert w1 Hno Hex. run_method; assumption.
Qed.

(** ** Export followed by import, on a store without orphans *)

Lemma export_ok (w : world) (deck_id : Z) (path name : string) :
  Model.deck_name_of deck_id (working w) = Some name ->
  lookup_file path (files w) <> Some Forbidden ->
  Model.export_deck_json deck_id path w
  = (Ok tt,
     mkWorld (durable w) (working w)
             ((path,
               JsonText (JObj [ ("name", JStr name);
                                ("exported_at", JStr (clock w (ticks w)));
                                ("cards",
                                 JArr (map Model.export_card
                                           (select_where c_deck_id deck_id
                                                         (cards (working w))))) ]))
                :: files w)
             (clock w) (S (ticks w))).
Proof.
  intros Hname Hpath.
  unfold Model.export_deck_json, bind, query, now_isoformat, write_json.
  rewrite Hname. simpl.
  destruct (lookup_file path (files w)) as [[| | |doc]|]; try reflexivity.
  now destruct Hpath.
Qed.

Lemma field_text_export (c : card) :
  field_text (Model.export_card c) "front" = c_front c /\
  field_text (Model.export_card c) "back" = c_back c.
Proof.
  unfold field_text, Model.export_card. simpl.
  destruct (c_front c), (c_back c); split; reflexivity.
Qed.

Lemma exported_cards_importable (rows : list card) :
  forallb importable_card (map Model.export_card rows) = true.
Proof.
  induction rows as [|c rows IH]; simpl; [reflexivity|].
  rewrite IH. destruct (c_front c), (c_back c); reflexivity.
Qed.

Lemma select_where_none {R} (col : R -> Z) (v : Z) (rows : list R) :
  (forall r, In r rows -> col r <> v) -> select_where col v rows = [].
Proof.
  induction rows as [|x rows IH]; simpl; intros H; [reflexivity|].
  assert ((col x =? v) = false) as ->
      by (apply Z.eqb_neq; apply H; now left).
  apply IH. intros r Hr. apply H. now right.
Qed.

Section FreshCards.
Context (deck_id : Z) (clk : nat -> string).

Lemma fresh_cards_selected (items : list json) :
  forall first_id tick,
    select_where c_deck_id deck_id (fresh_cards deck_id first_id clk tick items)
    = fresh_cards deck_id first_id clk tick items.
Proof.
  induction items as [|item items IH]; intros first_id tick; simpl;
    [reflexivity|].
  now rewrite Z.eqb_refl, IH.
Qed.

Lemma fresh_cards_ids (items : list json) :
  forall first_id tick,
    Forall (fun x => first_id <= x)
           (map c_id (fresh_cards deck_id first_id clk tick items)) /\
    StronglySorted Z.lt (map c_id (fresh_cards deck_id first_id clk tick items)).
Proof.
  induction items as [|item items IH]; intros first_id tick; simpl.
  - split; constructor.
  - destruct (IH (first_id + 1) (S tick)) as [Hlow Hs]. split.
    + constructor; [lia|]. eapply Forall_impl; [|exact Hlow]. simpl. intros; lia.
    + constructor; [exact Hs|]. eapply Forall_impl; [|exact Hlow].
      simpl. intros; lia.
Qed.

Lemma fresh_cards_start_at_zero (items : list json) :
  forall first_id tick c,
    In c (fresh_cards deck_id first_id clk tick items) ->
    c_deck_id c = deck_id /\ c_correct_count c = 0 /\ c_seen_count c = 0 /\
    exists k, (tick <= k)%nat /\ c_created_at c = clk k.
Proof.
  induction items as [|item items IH]; intros first_id tick c; simpl; [tauto|].
  intros [<- | Hin].
  - simpl. repeat split. exists tick. split; [lia | reflexivity].
  - destruct (IH _ _ _ Hin) as (Hd & Hc & Hs & k & Hk & Hat).
    repeat split; try assumption. exists k. split; [lia | exact Hat].
Qed.

Lemma fresh_cards_texts (rows : list card) :
  forall first_id tick,
    map (fun c => (c_front c, c_back c))
        (fresh_cards deck_id first_id clk tick (map Model.export_card rows))
    = map (fun c => (c_front c, c_back c)) rows.
Proof.
  induction rows as [|c rows IH]; intros first_id tick; [reflexivity|].
  cbn [map fresh_cards c_front c_back].
  destruct (field_text_export c) as [-> ->]. now rewrite IH.
Qed.

End FreshCards.

Lemma text_pair_as_row (rows : list card) :
  map text_pair (map Model.as_row rows) = map (fun c => (c_front c, c_back c)) rows.
Proof. rewrite map_map. reflexivity. Qed.

Lemma next_deck_id_unused (d : db) :
  no_orphans d ->
  forall c, In c (cards d) -> c_deck_id c <> next_rowid (map d_id (decks d)).
Proof.
  intros H c Hc Heq. specialize (H c Hc). unfold deck_exists in H.
  apply existsb_exists in H. destruct H as (r & Hr & Hid).
  apply Z.eqb_eq in Hid.
  pose proof (next_rowid_above (map d_id (decks d))) as Habove.
  rewrite Forall_forall in Habove.
  specialize (Habove (d_id r) (in_map d_id _ _ Hr)). lia.
Qed.

Lemma import_of_export (w : world) (deck_id : Z) (path name : string) :
  Model.deck_name_of deck_id (working w) = Some name ->
  lookup_file path (files w) <> Some Forbidden ->
  let rows := select_where c_deck_id deck_id (cards (working w)) in
  let new_id := next_rowid (map d_id (decks (working w))) in
  exists text w0,
    working w0 = working w /\ clock w0 = clock w /\ (ticks w < ticks w0)%nat /\
    Model.import_deck_json path (snd (Model.export_deck_json deck_id path w))
    = (Ok new_id,
       after_import_cards new_id (map Model.export_card rows) (after_add_deck text w0)).
Proof.
  intros Hname Hpath rows new_id.
  rewrite (export_ok w deck_id path name Hname Hpath). cbn [snd]. fold rows.
  set (fields := [ ("name", JStr name);
                   ("exported_at", JStr (clock w (ticks w)));
                   ("cards", JArr (map Model.export_card rows)) ]).
  set (w1 := mkWorld (durable w) (working w) ((path, JsonText (JObj fields)) :: files w)
                     (clock w) (S (ticks w))).
  assert (Hfile : lookup_file path (files w1) = Some (JsonText (JObj fields)))
    by (simpl; now rewrite String.eqb_refl).
  assert (Himp : importable_cards fields = true)
    by (unfold importable_cards; simpl; apply exported_cards_importable).
  assert (Hlisted : listed_cards fields = map Model.export_card rows) by reflexivity.
  destruct (String.eqb name "") eqn:Ename.
  - exists ("Deck " ++ clock w1 (ticks w1))%string, (tick w1).
    split; [reflexivity|]. split; [reflexivity|]. split; [simpl; lia|].
    rewrite (import_default_name w1 path fields Hfile Himp), Hlisted; [reflexivity|].
    simpl. now rewrite Ename.
  - exists name, w1.
    split; [reflexivity|]. split; [reflexivity|]. split; [simpl; lia|].
    rewrite (import_named w1 path fields name Hfile Himp eq_refl), Hlisted;
      [reflexivity|].
    now apply String.eqb_neq.
Qed.

(** X5. On a store in rowid order and without orphans, importing the export
    of an existing deck gives a deck under an id no deck had, whose listing
    shows the (front, back) pairs of the exported deck in the same order;
    its cards have both counters at zero and carry clock readings taken
    after the one written as exported_at. *)
Lemma export_import_roundtrip (w : world) (deck_id : Z) (path name : string) :
  rowid_ordered (working w) ->
  no_orphans (working w) ->
  Model.deck_name_of deck_id (working w) = Some name ->
  lookup_file path (files w) <> Some Forbidden ->
  let w1 := snd (Model.export_deck_json deck_id path w) in
  let (r, w2) := Model.import_deck_json path w1 in
  let new_id := next_rowid (map d_id (decks (working w))) in
  r = Ok new_id /\
  find_deck new_id (working w) = None /\
  (exists old new,
      fst (Model.cards_in_deck deck_id w) = Ok old /\
      fst (Model.cards_in_deck new_id w2) = Ok new /\
      map text_pair new = map text_pair old /\
      List.length new = List.length old) /\
  (forall c, In c (cards (working w2)) -> c_deck_id c = new_id ->
             c_correct_count c = 0 /\ c_seen_count c = 0 /\
             exists k, (ticks w < k)%nat /\ c_created_at c = clock w k).
Proof.
  intros [_ Hsorted] Hno Hname Hpath w1.
  destruct (import_of_export w deck_id path name Hname Hpath)
    as (text & w0 & Hwork & Hclock & Hticks & Hrun).
  fold w1 in Hrun. rewrite Hrun. clear Hrun.
  set (new_id := next_rowid (map d_id (decks (working w)))).
  set (rows := select_where c_deck_id deck_id (cards (working w))).
  assert (Hrows : StronglySorted Z.lt (map c_id rows))
    by (apply filter_keeps_order; exact Hsorted).
  pose proof (next_deck_id_unused (working w) Hno) as Hunused. fold new_id in Hunused.
  split; [reflexivity|]. split.
  { apply find_none_fresh, next_rowid_above. }
  unfold after_import_cards, after_add_deck. cbn [working cards decks clock ticks].
  rewrite Hwork, Hclock.
  set (fresh := fresh_cards new_id (next_rowid (map c_id (cards (working w))))
                            (clock w) (S (ticks w0)) (map Model.export_card rows)).
  split.
  - exists (map Model.as_row rows), (map Model.as_row fresh).
    unfold Model.cards_in_deck, query. cbn [fst working cards].
    fold rows. rewrite (order_by_id_sorted rows Hrows).
    split; [reflexivity|].
    unfold select_where. rewrite filter_app.
    fold (select_where c_deck_id new_id (cards (working w))).
    fold (select_where c_deck_id new_id fresh).
    rewrite (select_where_none c_deck_id new_id _ Hunused). cbn [app].
    unfold fresh at 1. rewrite fresh_cards_selected. fold fresh.
    rewrite (order_by_id_sorted fresh) by apply fresh_cards_ids.
    split; [reflexivity|].
    assert (Htexts : map text_pair (map Model.as_row fresh)
                     = map text_pair (map Model.as_row rows))
      by (rewrite !text_pair_as_row; apply fresh_cards_texts).
    split; [exact Htexts|].
    apply (f_equal (@List.length _)) in Htexts. rewrite !length_map in *. exact Htexts.
  - intros c Hin Hdeck. apply in_app_or in Hin. destruct Hin as [Hold | Hnew].
    + now destruct (Hunused c Hold).
    + destruct (fresh_cards_start_at_zero _ _ _ _ _ _ Hnew) as (_ & Hc & Hs & k & Hk & Hat).
      repeat split; try assumption. exists k. split; [lia | exact Hat].
Qed.

(** ** The theorems at sample stores *)

(** Studying "Spanish" opens the window on its two cards, "hola" first. *)
Example start_study_spanish :
  start_study 1 spanish_world = Some (init spanish_entries) /\
  front_lbl (init spanish_entries) = "hola".
Proof. split; reflexivity. Qed.

(** A right answer on "hola", seen for the first time. *)
Lemma record_result_counts_witness :
  find_card 1 (working spanish_world) = Some hola /\
  exists C',
    find_card 1 (working (snd (Model.record_result 1 true spanish_world))) = Some C' /\
    c_seen_count C' = 1 /\ c_correct_count C' = 1 /\ c_front C' = Some "hola".
Proof.
  split; [reflexivity|].
  pose proof (record_result_counts spanish_world 1 true hola eq_refl) as H.
  destruct (Model.record_result 1 true spanish_world) as [r w'].
  destruct H as (_ & (C' & Hfind & Hseen & Hcorrect & _ & _ & Hfront & _) & _).
  exists C'. repeat split; assumption.
Defined.

(** A result for "adios", card 2, after it was deleted. *)
Lemma record_result_absent_witness :
  find_card 2 (working spanish_world)
  = Some (mkCard 2 1 (Some "adios") (Some "bye") 0 0 "t2") /\
  bindable (JNum 2) = true /\
  synced adios_deleted_world /\
  find_card 2 (working adios_deleted_world) = None /\
  Model.record_result 2 false adios_deleted_world = (Ok tt, adios_deleted_world).
Proof.
  refine (conj eq_refl (conj eq_refl (conj eq_refl (conj eq_refl _)))).
  exact (record_result_absent adios_deleted_world 2 false eq_refl eq_refl eq_refl).
Defined.

(** Rewriting "hola": the number given for the back is stored as text. *)
Lemma update_card_frame_witness :
  find_card 1 (working spanish_world) = Some hola /\
  exists C',
    find_card 1 (working (snd (Model.update_card 1 (JStr "buenos dias") (JNum 7)
                                                 spanish_world))) = Some C' /\
    c_deck_id C' = 1 /\ c_correct_count C' = 0 /\ c_seen_count C' = 0 /\
    c_created_at C' = "t1" /\
    find_card 2 (working (snd (Model.update_card 1 (JStr "buenos dias") (JNum 7)
                                                 spanish_world)))
    = find_card 2 (working spanish_world).
Proof.
  split; [reflexivity|].
  pose proof (update_card_frame spanish_world 1 (JStr "buenos dias") (JNum 7)) as H.
  destruct (Model.update_card 1 (JStr "buenos dias") (JNum 7) spanish_world) as [r w'].
  destruct H as (_ & _ & Hother & Hsame & _).
  destruct (Hsame hola eq_refl) as (C' & Hfind & _ & Hdeck & Hc & Hs & Hat & _).
  exists C'. repeat split; try assumption.
  apply Hother. discriminate.
Defined.

(** "hola" answered wrong goes behind "adios"; two right answers close
    the window. *)
Lemma mark_requeues_and_advances_witness :
  current (init spanish_entries) = Some (mkEntry 1 (Some "hola") (Some "hello")) /\
  (let s := snd (mark false (init spanish_entries, spanish_world)) in
   queue (fst s) = [mkEntry 1 (Some "hola") (Some "hello")] /\
   current (fst s) = Some (mkEntry 2 (Some "adios") (Some "bye")) /\
   front_lbl (fst s) = "adios" /\ back_shown (fst s) = false) /\
  destroyed (fst (press 1 true (init spanish_entries, spanish_world))) = false /\
  destroyed (fst (press 2 true (init spanish_entries, spanish_world))) = true.
Proof.
  destruct mark_requeues_and_advances as [Hmark Hrun].
  split; [reflexivity|]. split.
  - specialize (Hmark (init spanish_entries) spanish_world
                      (mkEntry 1 (Some "hola") (Some "hello")) false eq_refl).
    destruct (mark false (init spanish_entries, spanish_world)) as [r s].
    destruct Hmark as (_ & _ & Hq & Hcur & Hback & Hlbl & _).
    repeat split; assumption.
  - destruct (Hrun spanish_entries spanish_world) as (Hopen & Hclosed & _).
    split; [apply (Hopen 1%nat); simpl; lia | exact Hclosed].
Defined.

(** Deleting "Spanish" leaves "French" and its card. *)
Lemma delete_deck_cascades_witness :
  bindable (JNum 1) = true /\
  fst (Model.cards_in_deck 1 two_decks_world)
  = Ok [ (1, Some "hola", Some "hello", 0, 0); (2, Some "adios", Some "bye", 0, 0) ] /\
  (let w' := snd (Model.delete_deck 1 two_decks_world) in
   fst (Model.cards_in_deck 1 w') = Ok [] /\
   find_deck 1 (working w') = None /\
   fst (Model.cards_in_deck 2 w') = Ok [ (3, Some "bonjour", Some "hello", 0, 0) ] /\
   durable w' = working w').
Proof.
  split; [reflexivity|]. split; [reflexivity|].
  pose proof (delete_deck_cascades two_decks_world 1 eq_refl) as H.
  destruct (Model.delete_deck 1 two_decks_world) as [r w'].
  destruct H as (_ & Hempty & Hgone & _ & Hother & Hdur & _).
  cbn [snd]. repeat split; try assumption.
  rewrite (Hother 2); [reflexivity | reflexivity | discriminate].
Defined.

(** Exporting "Spanish" from the store with two decks. *)
Lemma export_follows_cards_in_deck_witness :
  rowid_ordered (working two_decks_world) /\
  Model.deck_name_of 1 (working two_decks_world) = Some "Spanish" /\
  lookup_file "spanish.json" (files two_decks_world) <> Some Forbidden /\
  exists rows,
    fst (Model.cards_in_deck 1 two_decks_world) = Ok (map Model.as_row rows) /\
    lookup_file "spanish.json"
                (files (snd (Model.export_deck_json 1 "spanish.json" two_decks_world)))
    = Some (JsonText (JObj [ ("name", JStr "Spanish");
                             ("exported_at", JStr "t5");
                             ("cards", JArr (map Model.export_card rows)) ])).
Proof.
  assert (Hord : rowid_ordered (working two_decks_world))
    by (split; vm_compute; repeat (constructor; try reflexivity)).
  assert (Hpath : lookup_file "spanish.json" (files two_decks_world) <> Some Forbidden)
    by discriminate.
  split; [exact Hord|]. split; [reflexivity|]. split; [exact Hpath|].
  pose proof (export_follows_cards_in_deck two_decks_world 1 "spanish.json" "Spanish"
                                           Hord eq_refl Hpath) as H.
  destruct (Model.export_deck_json 1 "spanish.json" two_decks_world) as [r w'].
  destruct H as (_ & rows & _ & _ & Hlist & Hfile).
  exists rows. split; [exact Hlist | exact Hfile].
Defined.



(** ** What a call can do to a card *)

Lemma find_app_hit {R} (f : R -> bool) (rows more : list R) (r : R) :
  find f rows = Some r -> find f (rows ++ more) = Some r.
Proof.
  induction rows as [|x rows IH]; simpl; [discriminate|].
  destruct (f x); [trivial | exact IH].
Qed.

Lemma find_some_id {R} (id_of : R -> Z) (id : Z) (rows : list R) (r : R) :
  find (fun x => id_of x =? id) rows = Some r -> In r rows /\ id_of r = id.
Proof.
  intros H. apply find_some in H. destruct H as [Hin Hid].
  split; [exact Hin | now apply Z.eqb_eq].
Qed.

(** With distinct ids, a row found under an id after a DELETE is the row
    found under it before. *)
Lemma find_after_filter {R} (id_of : R -> Z) (id : Z) (p : R -> bool) (rows : list R) :
  StronglySorted Z.lt (map id_of rows) ->
  forall r r',
    find (fun x => id_of x =? id) rows = Some r ->
    find (fun x => id_of x =? id) (filter p rows) = Some r' ->
    r' = r.
Proof.
  induction rows as [|x rows IH]; simpl; intros Hs r r' Hr Hr'; [discriminate|].
  inversion Hs as [|? ? Hrest Hall]; subst.
  destruct (id_of x =? id) eqn:E.
  - injection Hr as <-. destruct (p x); simpl in Hr'.
    + rewrite E in Hr'. now injection Hr' as <-.
    + apply find_some_id in Hr'. destruct Hr' as [Hin Hid].
      apply filter_In in Hin. destruct Hin as [Hin _].
      rewrite Forall_forall in Hall.
      specialize (Hall (id_of r') (in_map id_of _ _ Hin)).
      apply Z.eqb_eq in E. lia.
  - destruct (p x); simpl in Hr'; [rewrite E in Hr'|]; now apply IH.
Qed.

Lemma calls_keep_counts (c : call) (w : world) :
  counted (working w) -> counted (working (perform c w)).
Proof.
  assert (Hbump : forall id f rows,
             (forall x, 0 <= c_correct_count x <= c_seen_count x ->
                        0 <= c_correct_count (f x) <= c_seen_count (f x)) ->
             (forall x, In x rows -> 0 <= c_correct_count x <= c_seen_count x) ->
             forall x, In x (update_where c_id id f rows) ->
                       0 <= c_correct_count x <= c_seen_count x).
  { intros id f rows Hf Hrows x Hx. unfold update_where in Hx.
    apply in_map_iff in Hx. destruct Hx as (x0 & <- & Hin).
    destruct (c_id x0 =? id); [apply Hf|]; now apply Hrows. }
  assert (Hcard : forall deck_id front back,
             keeps (fun w0 => counted (working w0)) (Model.add_card deck_id front back)).
  { run_method; try assumption.
    intros x Hx. simpl in Hx. apply in_app_or in Hx.
    destruct Hx as [Hx | [<- | []]]; [now apply H | simpl; lia]. }
  destruct c; unfold perform.
  - intros H; exact H.
  - revert w. run_method; assumption.
  - revert w. run_method; assumption.
  - revert w. run_method. intros x Hx. simpl in Hx.
    apply in_delete_where in Hx. now apply H.
  - intros H; exact H.
  - apply Hcard.
  - revert w. run_method; try assumption.
    intros x Hx. simpl in Hx. revert x Hx.
    apply Hbump; [intros x Hx; exact Hx | exact H].
  - revert w. run_method. intros x Hx. simpl in Hx.
    apply in_delete_where in Hx. now apply H.
  - revert w. run_method; intros x Hx; simpl in Hx; revert x Hx;
      (apply Hbump; [intros x Hx; simpl; lia | exact H]).
  - revert w. run_method; assumption.
  - revert w.
    change (keeps (fun w0 => counted (working w0)) (Model.import_deck_json path)).
    apply keeps_import; try (intros; apply Hcard); run_method; assumption.
Qed.

(** X2. In every state of a history, every card has 0 <= correct_count <=
    seen_count. *)
Theorem reachable_counted (w : world) :
  reachable w ->
  forall C, In C (cards (working w)) -> 0 <= c_correct_count C <= c_seen_count C.
Proof.
  intros Hr. change (counted (working w)).
  induction Hr as [fs clk | w c _ IH].
  - intros C [].
  - now apply calls_keep_counts.
Qed.

(** X3. A card that is in the table before and after a call keeps its deck
    and its creation time; its counters do not go down, and stay as they
    are unless the call is [record_result]; its texts stay as they are
    unless the call is [update_card]. *)
Theorem calls_keep_card (c : call) (w : world) (id : Z) (C C' : card) :
  rowid_ordered (working w) ->
  find_card id (working w) = Some C ->
  find_card id (working (perform c w)) = Some C' ->
  c_deck_id C' = c_deck_id C /\
  c_created_at C' = c_created_at C /\
  c_correct_count C <= c_correct_count C' /\
  c_seen_count C <= c_seen_count C' /\
  (leaves_statistics c = true ->
   c_correct_count C' = c_correct_count C /\ c_seen_count C' = c_seen_count C) /\
  (leaves_text c = true -> c_front C' = c_front C /\ c_back C' = c_back C).
Proof.
  intros [_ Hsorted] HC.
  assert (Hsame : C' = C ->
                  c_deck_id C' = c_deck_id C /\
                  c_created_at C' = c_created_at C /\
                  c_correct_count C <= c_correct_count C' /\
                  c_seen_count C <= c_seen_count C' /\
                  (leaves_statistics c = true ->
                   c_correct_count C' = c_correct_count C /\
                   c_seen_count C' = c_seen_count C) /\
                  (leaves_text c = true -> c_front C' = c_front C /\ c_back C' = c_back C)).
  { intros ->. repeat split; lia. }
  assert (Hupd : forall cid f,
             (forall x, c_id (f x) = c_id x) ->
             find_card id (mkDb (decks (working w))
                                (update_where c_id cid f (cards (working w)))) = Some C' ->
             C' = C \/ C' = f C).
  { intros cid f Hf H'. unfold find_card in *. simpl in H'.
    destruct (Z.eq_dec id cid) as [-> | Hne].
    - rewrite (find_update_where_hit c_id cid f _ C Hf HC) in H'.
      right. now injection H' as <-.
    - rewrite (find_update_where_miss c_id cid id f _ Hf Hne) in H'.
      left. congruence. }
  assert (Hcard : forall deck_id front back,
             keeps (fun w0 => find_card id (working w0) = Some C)
                   (Model.add_card deck_id front back)).
  { unfold find_card. run_method; try assumption. now apply find_app_hit. }
  assert (Hunchanged : forall A (m : M world A),
             cards (working (snd (m w))) = cards (working w) ->
             find_card id (working (snd (m w))) = Some C' -> C' = C).
  { intros A m Heq H'. unfold find_card in *. rewrite Heq in H'. congruence. }
  destruct c; unfold perform; intros HC'.
  - apply Hsame. now apply (Hunchanged _ Model.all_decks).
  - apply Hsame. apply (Hunchanged _ (Model.add_deck name)); [|exact HC'].
    clear. revert w. run_method; reflexivity.
  - apply Hsame. apply (Hunchanged _ (Model.rename_deck deck_id new_name)); [|exact HC'].
    clear. revert w. run_method; reflexivity.
  - apply Hsame. unfold find_card in *.
    exact (find_after_filter c_id id _ _ Hsorted C C' HC HC').
  - apply Hsame. now apply (Hunchanged _ (Model.cards_in_deck deck_id)).
  - apply Hsame. pose proof (Hcard deck_id front back w HC) as Hk. congruence.
  - assert (Hrun : cards (working (snd (Model.update_card card_id front back w)))
                   = cards (working w) \/
                   exists f b,
                     working (snd (Model.update_card card_id front back w))
                     = mkDb (decks (working w))
                            (update_where c_id card_id (set_card_text f b)
                                          (cards (working w)))).
    { clear. revert w. run_method; try (left; reflexivity).
      right. eexists. eexists. reflexivity. }
    destruct Hrun as [Heq | (f & b & Heq)].
    + apply Hsame. now apply (Hunchanged _ (Model.update_card card_id front back)).
    + rewrite Heq in HC'.
      destruct (Hupd card_id _ (set_card_text_id f b) HC') as [-> | ->];
        simpl; repeat split; try lia; discriminate.
  - apply Hsame. unfold find_card in *.
    exact (find_after_filter c_id id _ _ Hsorted C C' HC HC').
  - assert (Hrun : working (snd (Model.record_result card_id correct w))
                   = mkDb (decks (working w))
                          (update_where c_id card_id
                                        (if correct then bump_both else bump_seen)
                                        (cards (working w))))
      by (destruct correct; reflexivity).
    rewrite Hrun in HC'.
    assert (Hid : forall x, c_id ((if correct then bump_both else bump_seen) x) = c_id x)
      by (intros x; destruct correct; reflexivity).
    destruct (Hupd card_id _ Hid HC') as [-> | ->];
      destruct correct; simpl; repeat split; try lia; discriminate.
  - apply Hsame. apply (Hunchanged _ (Model.export_deck_json deck_id path)); [|exact HC'].
    clear. revert w. run_method; reflexivity.
  - apply Hsame.
    assert (Hk : keeps (fun w0 => find_card id (working w0) = Some C)
                       (Model.import_deck_json path)).
    { apply keeps_import; try (intros; apply Hcard);
        unfold find_card; run_method; assumption. }
    specialize (Hk w HC). congruence.
Qed.

(** ** ORDER BY *)



Lemma insert_by_name_perm (d : deck) (rows : list deck) :
  Permutation (d :: rows) (insert_by_name d rows).
Proof.
  induction rows as [|x rows IH]; simpl; [apply Permutation_refl|].
  destruct (String.leb (d_name d) (d_name x)); [apply Permutation_refl|].
  eapply perm_trans; [apply perm_swap | now constructor].
Qed.

Lemma order_by_name_perm (rows : list deck) : Permutation rows (order_by_name rows).
Proof.
  induction rows as [|d rows IH]; simpl; [constructor|].
  eapply perm_trans; [constructor; exact IH | apply insert_by_name_perm].
Qed.

Lemma insert_by_name_sorted (d : deck) (rows : list deck) :
  Sorted (fun a b => String.leb (d_name a) (d_name b) = true) rows ->
  Sorted (fun a b => String.leb (d_name a) (d_name b) = true) (insert_by_name d rows).
Proof.
  induction rows as [|x rows IH]; simpl; intros Hs.
  - repeat constructor.
  - destruct (String.leb (d_name d) (d_name x)) eqn:E.
    + constructor; [exact Hs | constructor; exact E].
    + inversion Hs as [|? ? Hrest Hhd]; subst.
      constructor; [now apply IH|].
      assert (Hxd : String.leb (d_name x) (d_name d) = true)
        by (destruct (String.leb_total (d_name d) (d_name x)); congruence).
      destruct rows as [|y rows]; simpl.
      * constructor; exact Hxd.
      * destruct (String.leb (d_name d) (d_name y)); constructor;
          [exact Hxd | now inversion Hhd].
Qed.

Lemma order_by_name_sorted (rows : list deck) :
  Sorted (fun a b => String.leb (d_name a) (d_name b) = true) (order_by_name rows).
Proof.
  induction rows as [|d rows IH]; simpl; [constructor|].
  now apply insert_by_name_sorted.
Qed.

(** X7. [all_decks] lists every deck once, by its id and name, in an order
    that does not go down in name. *)
Theorem all_decks_lists_by_name (w : world) :
  Model.all_decks w = (Ok (deck_listing w), w) /\
  Permutation (map (fun r => (d_id r, d_name r)) (decks (working w))) (deck_listing w) /\
  Sorted by_name (deck_listing w) /\
  (forall id name,
      In (id, name) (deck_listing w) <->
      exists D, In D (decks (working w)) /\ d_id D = id /\ d_name D = name).
Proof.
  split; [reflexivity|]. unfold deck_listing.
  assert (Hperm : Permutation (map (fun r => (d_id r, d_name r)) (decks (working w)))
                              (map (fun r => (d_id r, d_name r))
                                   (order_by_name (decks (working w)))))
    by (apply Permutation_map, order_by_name_perm).
  split; [exact Hperm|]. split.
  - clear Hperm. pose proof (order_by_name_sorted (decks (working w))) as Hs.
    induction Hs as [|x rows Hrest IH Hhd]; simpl; [constructor|].
    constructor; [exact IH|].
    destruct Hhd; simpl; constructor. assumption.
  - intros id name. split.
    + intros Hin. apply (Permutation_in _ (Permutation_sym Hperm)) in Hin.
      apply in_map_iff in Hin. destruct Hin as (D & Heq & HD).
      exists D. injection Heq as <- <-. auto.
    + intros (D & HD & <- & <-). apply (Permutation_in _ Hperm).
      now apply (in_map (fun r => (d_id r, d_name r))).
Qed.

(** ** Exporting reads only *)



(** ** Deleting a card, renaming a deck *)

Lemma find_deleted {R} (id_of : R -> Z) (id : Z) (rows : list R) :
  find (fun x => id_of x =? id) (delete_where id_of id rows) = None.
Proof.
  induction rows as [|x rows IH]; simpl; [reflexivity|].
  destruct (id_of x =? id) eqn:E; simpl; [exact IH|]. now rewrite E.
Qed.

Lemma find_not_deleted {R} (id_of : R -> Z) (id other : Z) (rows : list R) :
  other <> id ->
  find (fun x => id_of x =? other) (delete_where id_of id rows)
  = find (fun x => id_of x =? other) rows.
Proof.
  intros Hne. induction rows as [|x rows IH]; simpl; [reflexivity|].
  destruct (id_of x =? id) eqn:E; simpl.
  - apply Z.eqb_eq in E.
    assert ((id_of x =? other) = false) as -> by (apply Z.eqb_neq; congruence).
    exact IH.
  - now rewrite IH.
Qed.

Lemma delete_where_absent {R} (id_of : R -> Z) (id : Z) (rows : list R) :
  find (fun x => id_of x =? id) rows = None -> delete_where id_of id rows = rows.
Proof.
  induction rows as [|x rows IH]; simpl; [reflexivity|].
  destruct (id_of x =? id); [discriminate|]. simpl. intros H. now rewrite IH.
Qed.

(** X8. For a card id that sqlite3 binds, [delete_card] returns normally
    and commits; the card is gone, every other card and every deck is as
    before; on an id no card has, with nothing pending, the state is
    unchanged, so a second delete undoes nothing. *)
Theorem delete_card_removes (w : world) (card_id : Z) :
  bindable (JNum card_id) = true ->
  let (r, w') := Model.delete_card card_id w in
  r = Ok tt /\
  find_card card_id (working w') = None /\
  (forall other, other <> card_id ->
                 find_card other (working w') = find_card other (working w)) /\
  decks (working w') = decks (working w) /\
  durable w' = working w' /\
  Model.delete_card card_id w' = (Ok tt, w') /\
  (synced w -> find_card card_id (working w) = None -> w' = w).
Proof.
  intros _.
  unfold Model.delete_card, bind, execute, commit, find_card, synced. simpl.
  split; [reflexivity|]. split; [apply find_deleted|]. split.
  { intros other Hne. now apply find_not_deleted. }
  split; [reflexivity|]. split; [reflexivity|]. split.
  - rewrite (delete_where_absent c_id card_id (delete_where c_id card_id _))
      by apply find_deleted.
    reflexivity.
  - intros Hs Hnone. rewrite (delete_where_absent c_id _ _ Hnone).
    destruct w as [du wo fs clk tk]; simpl in *. subst du. destruct wo; reflexivity.
Qed.

(** X9. [rename_deck] keeps the cards, the ids of the decks and every other
    deck; the deck it names keeps its id and creation time and, when the
    call returns normally, carries the new name as bound text.  A name
    that binds to NULL raises IntegrityError when the deck exists; a call
    that raises changes nothing. *)
Theorem rename_deck_frame (w : world) (deck_id : Z) (new_name : json) :
  let (r, w') := Model.rename_deck deck_id new_name w in
  cards (working w') = cards (working w) /\
  map d_id (decks (working w')) = map d_id (decks (working w)) /\
  (forall other, other <> deck_id ->
                 find_deck other (working w') = find_deck other (working w)) /\
  (forall D, find_deck deck_id (working w) = Some D ->
     (new_name = JNull -> r = Raise IntegrityError) /\
     exists D',
       find_deck deck_id (working w') = Some D' /\
       d_id D' = d_id D /\ d_created_at D' = d_created_at D /\
       (r = Ok tt ->
        exists v, bind_param new_name = Ok v /\ text_affinity v = Some (d_name D'))) /\
  (r = Ok tt -> durable w' = working w') /\
  (r <> Ok tt -> w' = w).
Proof.
  assert (Hex : forall D, find_deck deck_id (working w) = Some D ->
                          existsb (fun r => d_id r =? deck_id) (decks (working w)) = true).
  { intros D HD. apply find_some in HD. apply existsb_exists. now exists D. }
  unfold Model.rename_deck, bind, lift_outcome, execute, commit, raise.
  destruct (bind_param new_name) as [v|e] eqn:Ev.
  - destruct (text_affinity v) as [text|] eqn:Et; simpl.
    + split; [reflexivity|]. split; [now apply update_where_ids|]. split.
      { intros other Hne. unfold find_deck. simpl.
        now apply find_update_where_miss. }
      split.
      * intros D HD. split.
        { intros ->. simpl in Ev. injection Ev as <-. discriminate Et. }
        exists (set_deck_name text D). unfold find_deck in *. simpl.
        split; [now apply find_update_where_hit|].
        repeat split. intros _. exists v. auto.
      * split; [reflexivity | congruence].
    + destruct (existsb (fun r => d_id r =? deck_id) (decks (working w))) eqn:Eex; simpl.
      * split; [reflexivity|]. split; [reflexivity|]. split; [reflexivity|]. split.
        { intros D HD. split; [reflexivity|]. exists D. repeat split; try assumption.
          discriminate. }
        split; [discriminate | reflexivity].
      * split; [reflexivity|]. split; [reflexivity|]. split; [reflexivity|]. split.
        { intros D HD. pose proof (Hex D HD). congruence. }
        split; [reflexivity | congruence].
  - simpl. split; [reflexivity|]. split; [reflexivity|]. split; [reflexivity|]. split.
    + intros D HD. split; [intros ->; simpl in Ev; discriminate Ev|].
      exists D. repeat split; try assumption. discriminate.
    + split; [discriminate | reflexivity].
Qed.

(** ** Adding a deck, adding a card *)

Lemma find_snoc_other {R} (id_of : R -> Z) (id : Z) (rows : list R) (r : R) :
  id_of r <> id ->
  find (fun x => id_of x =? id) (rows ++ [r]) = find (fun x => id_of x =? id) rows.
Proof.
  intros Hne. induction rows as [|x rows IH]; simpl.
  - now apply Z.eqb_neq in Hne as ->.
  - destruct (id_of x =? id); [reflexivity | exact IH].
Qed.

(** X10. [add_deck] with a name that binds to text returns an id above every
    id in the table and commits one deck under it, with that text and the
    clock reading as creation time; the other decks and the cards are as
    before, and [all_decks] now lists the new deck.  A name that binds to
    NULL raises IntegrityError and a name that cannot be bound raises the
    binding error; neither writes a row. *)
Theorem add_deck_fresh (w : world) (name : json) :
  let (r, w') := Model.add_deck name w in
  let id := next_rowid (map d_id (decks (working w))) in
  cards (working w') = cards (working w) /\
  (forall v text,
      bind_param name = Ok v -> text_affinity v = Some text ->
      r = Ok id /\
      Forall (fun x => x < id) (map d_id (decks (working w))) /\
      find_deck id (working w') = Some (mkDeck id text (clock w (ticks w))) /\
      (forall other, other <> id ->
                     find_deck other (working w') = find_deck other (working w)) /\
      durable w' = working w' /\
      In (id, text) (deck_listing w')) /\
  (forall v, bind_param name = Ok v -> text_affinity v = None ->
             r = Raise IntegrityError /\ working w' = working w /\
             durable w' = durable w) /\
  (forall e, bind_param name = Raise e ->
             r = Raise e /\ working w' = working w /\ durable w' = durable w).
Proof.
  unfold Model.add_deck, Model.insert_deck, bind, now_isoformat, lift_outcome, commit,
    ret, raise.
  destruct (bind_param name) as [v|e]; simpl.
  - destruct (text_affinity v) as [text|] eqn:Et; simpl.
    + split; [reflexivity|]. split; [|split; [congruence | discriminate]].
      intros v0 text0 [= <-] Ht. rewrite Et in Ht. injection Ht as <-.
      pose proof (next_rowid_above (map d_id (decks (working w)))) as Habove.
      split; [reflexivity|]. split; [exact Habove|].
      assert (Hfound : find_deck (next_rowid (map d_id (decks (working w))))
                         (mkDb (decks (working w)
                                ++ [mkDeck (next_rowid (map d_id (decks (working w))))
                                           text (clock w (ticks w))])
                               (cards (working w)))
                       = Some (mkDeck (next_rowid (map d_id (decks (working w))))
                                      text (clock w (ticks w))))
        by apply (new_deck_found w).
      split; [exact Hfound|]. split.
      { intros other Hne. unfold find_deck. simpl. apply find_snoc_other.
        simpl. congruence. }
      split; [reflexivity|].
      unfold deck_listing. simpl.
      apply (Permutation_in _ (Permutation_map _ (order_by_name_perm _))).
      apply (in_map (fun r => (d_id r, d_name r))
                    _ (mkDeck (next_rowid (map d_id (decks (working w)))) text
                              (clock w (ticks w)))).
      apply in_or_app. right. now left.
    + split; [reflexivity|]. split; [|split; [|discriminate]].
      * intros v0 text0 [= <-] Ht. congruence.
      * intros v0 _ _. repeat split.
  - split; [reflexivity|]. split; [discriminate|]. split; [discriminate|].
    intros e0 [= <-]. repeat split.
Qed.

(** X11. On a table in rowid order, [add_card] with a deck id and texts
    that sqlite3 binds returns an id above every id in the table, and the
    new card, with both counters at 0, comes last in the listing of its
    deck; the other listings are as before. *)
Theorem add_card_appends (w : world) (deck_id : Z) (front back : json) (f b : sqlval) :
  rowid_ordered (working w) ->
  bindable (JNum deck_id) = true ->
  bind_param front = Ok f -> bind_param back = Ok b ->
  let (r, w') := Model.add_card deck_id front back w in
  let id := next_rowid (map c_id (cards (working w))) in
  r = Ok id /\
  Forall (fun x => x < id) (map c_id (cards (working w))) /\
  listing deck_id w' = listing deck_id w ++ [(id, text_affinity f, text_affinity b, 0, 0)] /\
  (forall other, other <> deck_id -> listing other w' = listing other w) /\
  decks (working w') = decks (working w) /\
  durable w' = working w'.
Proof.
  intros [_ Hsorted] _ Hf Hb.
  unfold Model.add_card, Model.insert_card, bind, now_isoformat, lift_outcome, commit, ret.
  rewrite Hf, Hb. simpl.
  set (id := next_rowid (map c_id (cards (working w)))).
  set (new := mkCard id deck_id (text_affinity f) (text_affinity b) 0 0 (clock w (ticks w))).
  assert (Hall : StronglySorted Z.lt (map c_id (cards (working w) ++ [new])))
    by now apply insert_keeps_order.
  split; [reflexivity|]. split; [apply next_rowid_above|].
  unfold listing, select_where. simpl. fold new.
  split; [|split; [|split; reflexivity]].
  - rewrite (order_by_id_sorted _ (filter_keeps_order c_id _ _ Hall)).
    rewrite (order_by_id_sorted _ (filter_keeps_order c_id _ _ Hsorted)).
    rewrite filter_app, map_app. simpl.
    now rewrite Z.eqb_refl.
  - intros other Hne.
    rewrite (order_by_id_sorted _ (filter_keeps_order c_id _ _ Hall)).
    rewrite (order_by_id_sorted _ (filter_keeps_order c_id _ _ Hsorted)).
    rewrite filter_app, map_app. simpl.
    assert ((deck_id =? other) = false) as -> by (apply Z.eqb_neq; congruence).
    simpl. now rewrite app_nil_r.
Qed.

(** ** Whole sessions *)

(** X12. [flip] touches nothing but the label and its flag, and does nothing
    without a current entry.  On a card whose front is shown it shows the
    back, or "(empty)" for a missing or empty back, and a second flip
    restores the window. *)
Theorem flip_toggles (win : StudyWindow.t) :
  let (r, win') := flip win in
  r = Ok tt /\
  queue win' = queue win /\ current win' = current win /\
  destroyed win' = destroyed win /\ dialogs win' = dialogs win /\
  (current win = None -> win' = win) /\
  (forall cur, shows_front win cur ->
               back_shown win' = true /\
               front_lbl win' = or_empty (e_back cur) /\
               snd (flip win') = win).
Proof.
  unfold flip, shows_front. destruct (current win) as [shown|] eqn:Ecur.
  - destruct (back_shown win) eqn:Eback; simpl;
      do 6 (split; [first [reflexivity | congruence]|]);
      intros entry (Hcur & Hback & Hlbl); try discriminate Hback.
    injection Hcur as <-.
    split; [reflexivity|]. split; [reflexivity|].
    rewrite <- Hlbl, <- Ecur, <- Eback. destruct win; reflexivity.
  - simpl.
    do 6 (split; [first [reflexivity | congruence]|]).
    intros entry (Hcur & _). discriminate.
Qed.

Lemma mark_keeps_closed (win : StudyWindow.t) (w : world) (correct : bool) :
  destroyed win = true -> destroyed (fst (snd (mark correct (win, w)))) = true.
Proof.
  intros Hd. destruct (current win) as [cur|] eqn:Ecur.
  - rewrite (mark_step _ _ _ _ Ecur). simpl.
    destruct (if correct then queue win else queue win ++ [cur]); simpl; auto.
  - unfold mark. simpl. rewrite Ecur. exact Hd.
Qed.

Lemma answer_closes (answers : list bool) :
  forall (win : StudyWindow.t) (w : world) (n : nat),
    (destroyed win = true -> n = 0%nat) ->
    (destroyed win = false ->
     exists cur, current win = Some cur /\ n = S (List.length (queue win))) ->
    destroyed (fst (answer answers (win, w))) = (n <=? right_answers answers)%nat.
Proof.
  induction answers as [|correct rest IH]; intros win w n Hclosed Hopen.
  - simpl. destruct (destroyed win).
    + now rewrite (Hclosed eq_refl).
    + destruct (Hopen eq_refl) as (cur & _ & ->). reflexivity.
  - cbn [answer]. destruct (destroyed win) eqn:Ed.
    + rewrite (Hclosed eq_refl).
      pose proof (mark_keeps_closed win w correct Ed) as Hstill.
      destruct (snd (mark correct (win, w))) as [win' w'] eqn:Es. simpl in Hstill.
      rewrite (IH win' w' 0%nat); [reflexivity | reflexivity | congruence].
    + destruct (Hopen eq_refl) as (cur & Hcur & ->).
      rewrite (mark_step _ _ _ _ Hcur). cbn [snd].
      destruct correct.
      * unfold right_answers. cbn [filter List.length].
        fold (right_answers rest).
        destruct (queue win) as [|head more] eqn:Eq.
        -- rewrite (IH _ _ 0%nat); [reflexivity | reflexivity | discriminate].
        -- rewrite (IH _ _ (S (List.length more))).
           ++ reflexivity.
           ++ simpl. congruence.
           ++ intros _. exists head. split; reflexivity.
      * unfold right_answers. cbn [filter]. fold (right_answers rest).
        destruct (queue win ++ [cur]) as [|head more] eqn:Eq.
        -- now destruct (queue win).
        -- assert (Hlen : List.length more = List.length (queue win)).
           { apply (f_equal (@List.length _)) in Eq.
             rewrite length_app in Eq. simpl in Eq. lia. }
           rewrite (IH _ _ (S (List.length (queue win)))).
           ++ reflexivity.
           ++ simpl. congruence.
           ++ intros _. exists head. simpl. split; [reflexivity | now rewrite Hlen].
Qed.

(** X13. Whatever the answers and their order, a window opened on N entries is
    closed exactly when N of the answers given so far were right: a wrong
    answer never closes it and never loses an entry. *)
Theorem session_closes_on_nth_right_answer
  (entries : list entry) (w : world) (answers : list bool) :
  destroyed (fst (answer answers (init entries, w)))
  = (List.length entries <=? right_answers answers)%nat.
Proof.
  apply answer_closes.
  - destruct entries; [reflexivity | discriminate].
  - destruct entries as [|e q]; [discriminate|].
    intros _. exists e. split; reflexivity.
Qed.

Lemma record_result_found (w : world) (card_id : Z) (correct : bool) (C : card) :
  find_card card_id (working w) = Some C ->
  find_card card_id (working (snd (Model.record_result card_id correct w)))
  = Some (if correct then bump_both C else bump_seen C).
Proof.
  intros HC. unfold find_card in *.
  destruct correct; simpl; now apply find_update_where_hit.
Qed.

(** X14. A session on a single card, answered wrong K times and then right:
    through the wrong answers the window stays as it was opened, on that
    card; the right answer closes it; the card, if it is in the table, has
    then been seen K + 1 more times and answered right once more. *)
Theorem single_card_retries (K : nat) :
  forall (w : world) (e : entry) (C : card),
    find_card (e_id e) (working w) = Some C ->
    let retried := press K false (init [e], w) in
    let closed := snd (mark true retried) in
    fst retried = init [e] /\
    destroyed (fst closed) = true /\ queue (fst closed) = [] /\
    exists C',
      find_card (e_id e) (working (snd closed)) = Some C' /\
      c_seen_count C' = c_seen_count C + Z.of_nat K + 1 /\
      c_correct_count C' = c_correct_count C + 1 /\
      durable (snd closed) = working (snd closed).
Proof.
  induction K as [|K IH]; intros w e C HC.
  - cbn [press]. split; [reflexivity|].
    rewrite (mark_step (init [e]) w e true eq_refl). cbn [snd fst].
    split; [reflexivity|]. split; [reflexivity|].
    exists (bump_both C). split; [exact (record_result_found w (e_id e) true C HC)|].
    simpl. repeat split; lia.
  - cbn [press].
    rewrite (mark_step (init [e]) w e false eq_refl). cbn [snd].
    change (match queue (init [e]) ++ [e] with
            | [] => _
            | head :: rest => _
            end) with (init [e]).
    pose proof (record_result_found w (e_id e) false C HC) as HC1. cbn iota in HC1.
    destruct (IH (snd (Model.record_result (e_id e) false w)) e (bump_seen C) HC1)
      as (Hwin & Hclosed & Hqueue & C' & HC' & Hseen & Hcorrect & Hdur).
    split; [exact Hwin|]. split; [exact Hclosed|]. split; [exact Hqueue|].
    exists C'. split; [exact HC'|]. simpl in Hseen, Hcorrect.
    repeat split; try assumption; lia.
Qed.

(** X15. A mark on an entry whose id sqlite3 binds and no card of the
    table carries, as when the entry's card was deleted and no card has
    been given its id since: with nothing pending the store is left
    exactly as it was, the call returns normally, and the window moves on
    as after any other mark. *)
Theorem mark_after_card_deleted
  (win : StudyWindow.t) (w : world) (cur : entry) (correct : bool) :
  current win = Some cur ->
  bindable (JNum (e_id cur)) = true ->
  synced w ->
  find_card (e_id cur) (working w) = None ->
  let (r, s') := mark correct (win, w) in
  r = Ok tt /\ snd s' = w /\
  match (if correct then queue win else queue win ++ [cur]) with
  | [] => destroyed (fst s') = true
  | head :: rest =>
      current (fst s') = Some head /\ queue (fst s') = rest /\
      destroyed (fst s') = destroyed win
  end.
Proof.
  intros Hcur _ Hs Hnone. rewrite (mark_step _ _ _ _ Hcur).
  split; [reflexivity|]. split.
  - cbn [snd]. unfold find_card, synced in *.
    unfold Model.record_result, bind, execute, commit.
    destruct correct; simpl;
      rewrite (update_where_absent c_id _ _ _ Hnone);
      destruct w as [du wo fs clk tk]; simpl in *; subst du;
      destruct wo; reflexivity.
  - cbn [fst]. destruct (if correct then queue win else queue win ++ [cur]);
      simpl; repeat split.
Qed.

(** ** Decks and their names over a history *)

Lemma decimal_not_empty (n : Z) : NilZero.string_of_int (Z.to_int n) <> "".
Proof.
  assert (Huint : forall d, NilZero.string_of_uint d <> "").
  { intros d. unfold NilZero.string_of_uint. destruct d; discriminate. }
  unfold NilZero.string_of_int. destruct (Z.to_int n); [apply Huint | discriminate].
Qed.

(** A value Python takes for true never binds to the empty text. *)
Lemma truthy_text (v : json) (x : sqlval) (text : string) :
  truthy v = true -> bind_param v = Ok x -> text_affinity x = Some text -> text <> "".
Proof.
  destruct v as [|b|n|s|items|fields]; unfold truthy, bind_param; try discriminate.
  - intros _ [= <-]. unfold text_affinity. intros [= <-]. apply decimal_not_empty.
  - intros _. destruct ((- 2 ^ 63 <=? n) && (n <? 2 ^ 63)); [|discriminate].
    intros [= <-]. unfold text_affinity. intros [= <-]. apply decimal_not_empty.
  - intros Hs [= <-]. unfold text_affinity. intros [= <-].
    apply negb_true_iff in Hs. now apply String.eqb_neq.
Qed.

Lemma named_more (ds : list deck) (D : deck) (cs cs' : list card) :
  d_name D <> "" -> named (mkDb ds cs) -> named (mkDb (ds ++ [D]) cs').
Proof.
  intros HD H x Hx. simpl in Hx. apply in_app_or in Hx.
  destruct Hx as [Hx | [<- | []]]; [exact (H x Hx) | exact HD].
Qed.

Lemma add_deck_named (name : json) :
  truthy name = true -> keeps (fun w => named (working w)) (Model.add_deck name).
Proof.
  intros Ht w Hw.
  unfold Model.add_deck, Model.insert_deck, bind, now_isoformat, lift_outcome, commit,
    ret, raise.
  destruct (bind_param name) as [v|e] eqn:Ev; simpl; [|exact Hw].
  destruct (text_affinity v) as [text|] eqn:Et; simpl; [|exact Hw].
  destruct (working w) as [ds cs]. apply (named_more ds _ cs cs); [|exact Hw].
  exact (truthy_text name v text Ht Ev Et).
Qed.

Lemma keeps_import_truthy (I : world -> Prop) (path : string) :
  keeps I (read_json path) -> keeps I now_isoformat ->
  (forall name, truthy name = true -> keeps I (Model.add_deck name)) ->
  (forall deck_id front back, keeps I (Model.add_card deck_id front back)) ->
  keeps I (Model.import_deck_json path).
Proof.
  intros Hread Hnow Hdeck Hcard. unfold Model.import_deck_json.
  apply keeps_bind; [exact Hread | intros payload].
  apply keeps_bind; [apply keeps_lift_outcome | intros given].
  assert (Hrest : forall name,
             truthy name = true ->
             keeps I (deck_id <- Model.add_deck name ;;
                      listed <- lift_outcome (py_get payload "cards" (JArr [])) ;;
                      items <- lift_outcome (py_iter listed) ;;
                      Model.import_cards deck_id items ;;
                      ret deck_id)).
  { intros name Ht.
    apply keeps_bind; [now apply Hdeck | intros deck_id].
    apply keeps_bind; [apply keeps_lift_outcome | intros listed].
    apply keeps_bind; [apply keeps_lift_outcome | intros items].
    apply keeps_bind; [|intros; apply keeps_ret].
    apply keeps_import_cards. intros. apply Hcard. }
  destruct (truthy given) eqn:Et; intros w Hw.
  - exact (Hrest given Et w Hw).
  - exact (Hrest (JStr ("Deck " ++ clock w (ticks w))%string) eq_refl _ (Hnow w Hw)).
Qed.

Lemma calls_keep_named (c : call) (w : world) :
  names_decks c -> named (working w) -> named (working (perform c w)).
Proof.
  assert (Hcard : forall deck_id front back,
             keeps (fun w0 => named (working w0)) (Model.add_card deck_id front back))
    by (run_method; assumption).
  destruct c; unfold perform, names_decks; intros Hc.
  - intros H; exact H.
  - now apply add_deck_named.
  - intros Hw.
    unfold Model.rename_deck, bind, lift_outcome, execute, commit.
    destruct (bind_param new_name) as [v|e] eqn:Ev; simpl; [|exact Hw].
    destruct (text_affinity v) as [text|] eqn:Et; simpl.
    + intros D HD. simpl in HD. unfold update_where in HD.
      apply in_map_iff in HD. destruct HD as (D0 & <- & HD0).
      destruct (d_id D0 =? deck_id); [|now apply Hw].
      simpl. exact (truthy_text new_name v text Hc Ev Et).
    + destruct (existsb _ _); simpl; exact Hw.
  - revert w. run_method. intros D HD. simpl in HD.
    apply in_delete_where in HD. now apply H.
  - intros H; exact H.
  - apply Hcard.
  - revert w. run_method; assumption.
  - revert w. run_method; assumption.
  - revert w. run_method; assumption.
  - revert w. run_method; assumption.
  - revert w. change (keeps (fun w0 => named (working w0)) (Model.import_deck_json path)).
    apply keeps_import_truthy; try (intros; apply Hcard);
      try (intros; now apply add_deck_named); run_method; assumption.
Qed.

(** A deck goes away through [delete_deck] only. *)
Lemma calls_keep_deck (c : call) (w : world) (id : Z) :
  keeps_decks c = true ->
  deck_exists id (working w) = true ->
  deck_exists id (working (perform c w)) = true.
Proof.
  unfold deck_exists.
  assert (Hcard : forall deck_id front back,
             keeps (fun w0 => existsb (fun r => d_id r =? id) (decks (working w0)) = true)
                   (Model.add_card deck_id front back))
    by (run_method; assumption).
  assert (Hdeck : forall name,
             keeps (fun w0 => existsb (fun r => d_id r =? id) (decks (working w0)) = true)
                   (Model.add_deck name)).
  { run_method; try assumption. rewrite existsb_app, H. reflexivity. }
  destruct c; unfold perform; intros Hc; try discriminate Hc.
  - intros H; exact H.
  - apply Hdeck.
  - revert w. run_method; try assumption.
    now rewrite exists_after_update.
  - intros H; exact H.
  - apply Hcard.
  - revert w. run_method; assumption.
  - revert w. run_method; assumption.
  - revert w. run_method; assumption.
  - revert w. run_method; assumption.
  - revert w.
    change (keeps (fun w0 => existsb (fun r => d_id r =? id) (decks (working w0)) = true)
                  (Model.import_deck_json path)).
    apply keeps_import; try (intros; apply Hcard); try (intros; apply Hdeck);
      run_method; assumption.
Qed.

(** ** The main window over a run *)

Lemma sound_step (c : call) (w : world) :
  names_decks c -> respects_decks c w -> sound w -> sound (perform c w).
Proof.
  intros Hn Hr (Hs & Ho & Hd). split; [|split].
  - now apply calls_keep_synced.
  - now apply calls_keep_no_orphans.
  - now apply calls_keep_named.
Qed.

Lemma known_step (c : call) (a : App.t) (w : world) :
  keeps_decks c = true -> known a w -> known a (perform c w).
Proof.
  intros Hc [Hrows Hsel]. split.
  - intros row Hrow. apply calls_keep_deck; auto.
  - intros id Hid. apply calls_keep_deck; auto.
Qed.

Lemma known_same (a a' : App.t) (w : world) :
  App.decks a' = App.decks a ->
  App.selected_deck_id a' = App.selected_deck_id a ->
  known a w -> known a' w.
Proof. intros Hd Hs [Hrows Hsel]. split; [rewrite Hd | rewrite Hs]; assumption. Qed.

Lemma listed_deck_exists (w : world) (row : Z * string) :
  In row (deck_listing w) -> deck_exists (fst row) (working w) = true.
Proof.
  unfold deck_listing. intros Hin. apply in_map_iff in Hin.
  destruct Hin as (D & <- & HD).
  apply (Permutation_in _ (Permutation_sym (order_by_name_perm _))) in HD.
  unfold deck_exists. apply existsb_exists. exists D.
  split; [exact HD | apply Z.eqb_refl].
Qed.

Ltac run_handler :=
  unfold App.add_deck, App.rename_deck, App.delete_deck, App.on_deck_select,
    App.on_card_select, App.add_card, App.update_card, App.delete_card,
    App.export_deck, App.import_deck, App.start_study,
    App.load_decks, App.load_cards, App.showinfo, App.showerror,
    App.set_selected_deck_id, App.set_selected_card_id, App.item, App.self,
    App.on_app, App.on_model, try_except, bind, ret, raise,
    Model.all_decks, Model.cards_in_deck, query;
  cbn [fst snd].

(** Name the state a model call leaves as the state [perform] gives. *)
Ltac model_step m c w :=
  let r := fresh "r" in
  let w1 := fresh "w" in
  let E := fresh "E" in
  let H := fresh "Hstep" in
  destruct m as [r w1] eqn:E;
  assert (H : w1 = perform c w) by (unfold perform; rewrite E; reflexivity);
  clear E; subst w1; destruct r; cbn [fst snd].

Lemma given_not_empty (answer : option string) (name : string) :
  App.given answer = Some name -> truthy (JStr name) = true.
Proof.
  unfold App.given. destruct answer as [text|]; [|discriminate].
  destruct (String.eqb text "") eqn:E; [discriminate|].
  intros [= <-]. simpl. now rewrite E.
Qed.

Lemma refreshed_known (a a' : App.t) (w : world) :
  App.decks a' = deck_listing w ->
  App.selected_deck_id a' = App.selected_deck_id a \/ App.selected_deck_id a' = None ->
  known a w -> known a' w.
Proof.
  intros Hd Hs [_ Hsel]. split.
  - intros row Hrow. rewrite Hd in Hrow. now apply listed_deck_exists.
  - intros id Hid. destruct Hs as [Hs | Hs]; rewrite Hs in Hid; [auto | discriminate].
Qed.

Section Handlers.
Context (a : App.t) (w : world) (Hw : sound w) (Ha : known a w).

Lemma add_deck_sound (answer : option string) :
  let s := snd (App.add_deck answer (a, w)) in sound (snd s) /\ known (fst s) (snd s).
Proof.
  run_handler.
  destruct (App.given answer) as [name|] eqn:Eg; cbn [fst snd]; [|auto].
  pose proof (given_not_empty _ _ Eg) as Hname.
  model_step (Model.add_deck (JStr name) w) (AddDeck (JStr name)) w;
    (split; [now apply sound_step|]).
  - apply (refreshed_known a); [reflexivity | now left |].
    now apply known_step.
  - now apply known_step.
Qed.

Lemma rename_deck_sound (sel : option nat) (answer : option string) :
  let s := snd (App.rename_deck sel answer (a, w)) in
  sound (snd s) /\ known (fst s) (snd s).
Proof.
  run_handler. destruct sel as [i|]; cbn [fst snd];
    [|split; [exact Hw | now apply (known_same a)]].
  destruct (nth_error (App.decks a) i) as [row|]; cbn [fst snd]; [|auto].
  destruct (App.given answer) as [name|] eqn:Eg; cbn [fst snd]; [|auto].
  pose proof (given_not_empty _ _ Eg) as Hname.
  model_step (Model.rename_deck (fst row) (JStr name) w)
             (RenameDeck (fst row) (JStr name)) w;
    (split; [now apply sound_step|]).
  - apply (refreshed_known a); [reflexivity | now left |].
    now apply known_step.
  - now apply known_step.
Qed.

Lemma delete_deck_sound (sel : option nat) (yes : bool) :
  let s := snd (App.delete_deck sel yes (a, w)) in
  sound (snd s) /\ known (fst s) (snd s).
Proof.
  run_handler. destruct sel as [i|]; cbn [fst snd];
    [|split; [exact Hw | now apply (known_same a)]].
  destruct (nth_error (App.decks a) i) as [row|]; cbn [fst snd]; [|auto].
  destruct yes; cbn [fst snd]; [|auto].
  change (Model.delete_deck (fst row) w)
    with (@Ok unit tt, perform (DeleteDeck (fst row)) w).
  cbn [fst snd]. split; [now apply sound_step|].
  split; [intros row0 Hrow0; now apply listed_deck_exists | discriminate].
Qed.

Lemma on_deck_select_sound (sel : option nat) :
  let s := snd (App.on_deck_select sel (a, w)) in
  sound (snd s) /\ known (fst s) (snd s).
Proof.
  run_handler. destruct sel as [i|]; cbn [fst snd]; [|auto].
  destruct (nth_error (App.decks a) i) as [row|] eqn:Erow; cbn [fst snd]; [|auto].
  split; [exact Hw|]. destruct Ha as [Hrows Hsel]. split; [exact Hrows|].
  intros id [= <-]. apply Hrows. now apply nth_error_In in Erow.
Qed.

Lemma on_card_select_sound (sel : option nat) :
  let s := snd (App.on_card_select sel (a, w)) in
  sound (snd s) /\ known (fst s) (snd s).
Proof.
  run_handler. destruct sel as [i|]; cbn [fst snd]; [|auto].
  destruct (App.cards a) as [rows|]; cbn [fst snd]; [|auto].
  destruct (nth_error rows i) as [card|]; cbn [fst snd]; [|auto].
  split; [exact Hw | now apply (known_same a)].
Qed.

Lemma add_card_sound (front_text back_text : string) :
  let s := snd (App.add_card front_text back_text (a, w)) in
  sound (snd s) /\ known (fst s) (snd s).
Proof.
  run_handler.
  destruct (App.chosen (App.selected_deck_id a)) as [deck_id|] eqn:Ec; cbn [fst snd];
    [|split; [exact Hw | now apply (known_same a)]].
  destruct (String.eqb (py_strip front_text) "" && String.eqb (py_strip back_text) "");
    cbn [fst snd]; [split; [exact Hw | now apply (known_same a)]|].
  assert (Hdeck : deck_exists deck_id (working w) = true).
  { destruct Ha as [_ Hsel]. apply Hsel. unfold App.chosen in Ec.
    destruct (App.selected_deck_id a) as [n|]; [|discriminate].
    destruct (n =? 0); [discriminate | congruence]. }
  model_step (Model.add_card deck_id (JStr (py_strip front_text))
                             (JStr (py_strip back_text)) w)
             (AddCard deck_id (JStr (py_strip front_text)) (JStr (py_strip back_text))) w;
    [destruct (App.selected_deck_id a) eqn:Esel; cbn [fst snd]|];
    (split; [now apply sound_step|]);
    try (apply (known_same a);
         [reflexivity | cbn; congruence | now apply known_step]).
Qed.

Lemma update_card_sound (front_text back_text : string) :
  let s := snd (App.update_card front_text back_text (a, w)) in
  sound (snd s) /\ known (fst s) (snd s).
Proof.
  run_handler.
  destruct (App.chosen (App.selected_card_id a)) as [card_id|]; cbn [fst snd];
    [|split; [exact Hw | now apply (known_same a)]].
  model_step (Model.update_card card_id (JStr (py_strip front_text))
                                (JStr (py_strip back_text)) w)
             (UpdateCard card_id (JStr (py_strip front_text))
                         (JStr (py_strip back_text))) w;
    [destruct (App.selected_deck_id a) eqn:Esel; cbn [fst snd]|];
    (split; [now apply sound_step|]);
    try (apply (known_same a);
         [reflexivity | cbn; congruence | now apply known_step]).
Qed.

Lemma delete_card_sound (yes : bool) :
  let s := snd (App.delete_card yes (a, w)) in
  sound (snd s) /\ known (fst s) (snd s).
Proof.
  run_handler.
  destruct (App.chosen (App.selected_card_id a)) as [card_id|]; cbn [fst snd];
    [|split; [exact Hw | now apply (known_same a)]].
  destruct yes; cbn [fst snd]; [|auto].
  model_step (Model.delete_card card_id w) (DeleteCard card_id) w;
    [destruct (App.selected_deck_id a) eqn:Esel; cbn [fst snd]|];
    (split; [now apply sound_step|]);
    try (apply (known_same a);
         [reflexivity | cbn; congruence | now apply known_step]).
Qed.

Lemma export_deck_sound (path : string) :
  let s := snd (App.export_deck path (a, w)) in
  sound (snd s) /\ known (fst s) (snd s).
Proof.
  run_handler.
  destruct (App.chosen (App.selected_deck_id a)) as [deck_id|]; cbn [fst snd];
    [|split; [exact Hw | now apply (known_same a)]].
  destruct (String.eqb path ""); cbn [fst snd]; [auto|].
  model_step (Model.export_deck_json deck_id path w) (ExportDeckJson deck_id path) w;
    (split; [now apply sound_step|]);
    (apply (known_same a); [reflexivity | reflexivity | now apply known_step]).
Qed.

Lemma import_deck_sound (path : string) :
  let s := snd (App.import_deck path (a, w)) in
  sound (snd s) /\ known (fst s) (snd s).
Proof.
  run_handler.
  destruct (String.eqb path ""); cbn [fst snd]; [auto|].
  model_step (Model.import_deck_json path w) (ImportDeckJson path) w;
    (split; [now apply sound_step|]).
  - apply (refreshed_known a); [reflexivity | now left | now apply known_step].
  - apply (known_same a); [reflexivity | reflexivity | now apply known_step].
Qed.

Lemma start_study_sound :
  let s := snd (App.start_study (a, w)) in
  sound (snd s) /\ known (fst s) (snd s).
Proof.
  run_handler.
  destruct (App.chosen (App.selected_deck_id a)) as [deck_id|]; cbn [fst snd];
    [|split; [exact Hw | now apply (known_same a)]].
  destruct (map Model.as_row _); cbn [fst snd];
    (split; [exact Hw | now apply (known_same a)]).
Qed.

End Handlers.

Lemma mark_store (win : StudyWindow.t) (w : world) (correct : bool) :
  snd (snd (mark correct (win, w))) = w \/
  exists card_id, snd (snd (mark correct (win, w))) = perform (RecordResult card_id correct) w.
Proof.
  destruct (current win) as [cur|] eqn:Ecur.
  - right. exists (e_id cur). now rewrite (mark_step _ _ _ _ Ecur).
  - left. unfold mark. simpl. now rewrite Ecur.
Qed.

Lemma launch_sound (w : world) :
  sound w -> sound (store (launch w)) /\ known (main (launch w)) (store (launch w)).
Proof.
  intros (Hs & Ho & Hn). unfold launch, App.init. run_handler.
  unfold crash, set_working, sound, synced in *. simpl. rewrite <- Hs.
  split; [split; [reflexivity | split; assumption]|].
  split; [|discriminate].
  intros row Hrow. simpl in Hrow.
  apply (listed_deck_exists (mkWorld (durable w) (working w) (files w) (clock w) (ticks w))).
  exact Hrow.
Qed.

Lemma running_sound (g : gui) :
  running g -> sound (store g) /\ known (main g) (store g).
Proof.
  induction 1 as [fs clk | g e _ [Hw Ha]].
  - apply launch_sound. split; [reflexivity|]. split; intros x [].
  - destruct e; unfold handle, callback; cbn [main store].
    + now apply add_deck_sound.
    + now apply rename_deck_sound.
    + now apply delete_deck_sound.
    + now apply on_deck_select_sound.
    + now apply on_card_select_sound.
    + now apply add_card_sound.
    + now apply update_card_sound.
    + now apply delete_card_sound.
    + now apply export_deck_sound.
    + now apply import_deck_sound.
    + pose proof (start_study_sound (main g) (store g) Hw Ha) as Hs.
      destruct (App.start_study (main g, store g)) as [r s]. exact Hs.
    + unfold window_callback. destruct (nth_error (windows g) n) as [win|]; [|auto].
      destruct (StudyWindow.destroyed win); [auto|]. cbn [main store].
      unfold on_window. cbn [fst snd].
      destruct (flip win) as [r win']. cbn [fst snd]. auto.
    + unfold window_callback. destruct (nth_error (windows g) n) as [win|]; [|auto].
      destruct (StudyWindow.destroyed win); [auto|]. cbn [main store].
      destruct (mark_store win (store g) correct) as [-> | (card_id & ->)]; [auto|].
      split; [now apply sound_step | now apply known_step].
    + unfold window_callback. destruct (nth_error (windows g) n) as [win|]; [|auto].
      destruct (StudyWindow.destroyed win); auto.
    + destruct Hw as (Hs & Ho & Hn). split; [split; [|split]|]; assumption.
    + now apply launch_sound.
Qed.

(** X16. However the program is used, from its first start on a fresh
    database and across restarts, no card is ever left without its deck:
    the main window adds cards only under a deck it has seen to exist. *)
Theorem program_leaves_no_orphans (g : gui) :
  running g ->
  no_orphans (working (store g)) /\ no_orphans (durable (store g)).
Proof.
  intros Hr. destruct (running_sound g Hr) as [(Hs & Ho & _) _].
  split; [exact Ho | now rewrite <- Hs].
Qed.

(** X17. However the program is used, every deck on disk has a name that is
    not empty: the dialogs refuse an empty answer and an import falls back
    on its default name. *)
Theorem program_names_every_deck (g : gui) :
  running g ->
  forall D, In D (decks (durable (store g))) -> d_name D <> "".
Proof.
  intros Hr. destruct (running_sound g Hr) as [(Hs & _ & Hn) _].
  rewrite <- Hs. exact Hn.
Qed.

(** ** Adding a card from the editor *)

Lemma lstrip_head (s : string) :
  lstrip s = "" \/ exists ch rest, lstrip s = String ch rest /\ is_space ch = false.
Proof.
  induction s as [|ch rest IH]; simpl; [now left|].
  destruct (is_space ch) eqn:E; [exact IH|]. right. now exists ch, rest.
Qed.

Lemma lstrip_empty (s : string) : lstrip s = "" <-> blank s = true.
Proof.
  induction s as [|ch rest IH]; simpl; [tauto|].
  destruct (is_space ch); simpl; [exact IH|]. split; discriminate.
Qed.

Lemma rstrip_keeps_head (ch : ascii) (rest : string) :
  is_space ch = false -> exists kept, rstrip (String ch rest) = String ch kept.
Proof.
  intros E. simpl. destruct (rstrip rest) as [|c k].
  - rewrite E. now exists "".
  - now exists (String c k).
Qed.

Lemma rstrip_twice (s : string) : rstrip (rstrip s) = rstrip s.
Proof.
  induction s as [|ch rest IH]; simpl; [reflexivity|].
  destruct (rstrip rest) as [|c k] eqn:Er.
  - destruct (is_space ch) eqn:E; simpl; [reflexivity | now rewrite E].
  - change (rstrip (String ch (String c k))) with
      (match rstrip (String c k) with
       | EmptyString => if is_space ch then EmptyString else String ch EmptyString
       | kept => String ch kept
       end).
    now rewrite IH.
Qed.

Lemma py_strip_empty (s : string) : py_strip s = "" <-> blank s = true.
Proof.
  unfold py_strip. rewrite <- lstrip_empty.
  destruct (lstrip_head s) as [-> | (ch & rest & -> & E)]; [tauto|].
  destruct (rstrip_keeps_head ch rest E) as (kept & ->). split; discriminate.
Qed.

Lemma py_strip_trimmed (s : string) : trimmed (py_strip s).
Proof.
  unfold trimmed, py_strip. split; [|apply rstrip_twice].
  destruct (lstrip_head s) as [-> | (ch & rest & -> & E)]; [reflexivity|].
  destruct (rstrip_keeps_head ch rest E) as (kept & ->). simpl. now rewrite E.
Qed.

(** X18. The Add Card button.  With no deck selected, or with nothing but
    white space in both editors, it shows a message and leaves the store
    as it is.  Otherwise it appends one card under the selected deck whose
    front and back are the editor texts without the white space at their
    ends, commits it, and reloads the card list. *)
Theorem add_card_refuses_blank (a : App.t) (w : world) (front_text back_text : string) :
  let (r, s') := App.add_card front_text back_text (a, w) in
  r = Ok tt /\
  (App.chosen (App.selected_deck_id a) = None \/
   (blank front_text = true /\ blank back_text = true) ->
   snd s' = w /\
   exists message, App.dialogs (fst s') = App.dialogs a ++ [App.ShowInfo "Info" message]) /\
  (forall deck_id,
      App.chosen (App.selected_deck_id a) = Some deck_id ->
      blank front_text && blank back_text = false ->
      exists new,
        cards (working (snd s')) = cards (working w) ++ [new] /\
        c_deck_id new = deck_id /\
        c_front new = Some (py_strip front_text) /\
        c_back new = Some (py_strip back_text) /\
        trimmed (py_strip front_text) /\ trimmed (py_strip back_text) /\
        c_correct_count new = 0 /\ c_seen_count new = 0 /\
        durable (snd s') = working (snd s') /\
        App.dialogs (fst s') = App.dialogs a).
Proof.
  assert (Hblank : String.eqb (py_strip front_text) "" && String.eqb (py_strip back_text) ""
                   = blank front_text && blank back_text).
  { assert (Heq : forall s, String.eqb (py_strip s) "" = blank s).
    { intros s. destruct (blank s) eqn:E.
      - apply py_strip_empty in E. now rewrite E.
      - apply String.eqb_neq. intros H. apply py_strip_empty in H. congruence. }
    now rewrite !Heq. }
  run_handler. rewrite Hblank.
  destruct (App.chosen (App.selected_deck_id a)) as [deck_id|] eqn:Ec; cbn [fst snd].
  - destruct (blank front_text && blank back_text) eqn:Eb; cbn [fst snd].
    + split; [reflexivity|]. split; [|discriminate].
      intros _. split; [reflexivity|]. now exists "Card is empty".
    + unfold Model.add_card, Model.insert_card, bind, now_isoformat, lift_outcome,
        commit, ret. cbn.
      destruct (App.selected_deck_id a); cbn;
        (split; [reflexivity|]); (split;
          [ intros [H | [Hf Hb]]; [discriminate | rewrite Hf, Hb in Eb; discriminate]
          | intros d [= <-] _; eexists; split; [reflexivity|];
            repeat split; apply py_strip_trimmed ]).
  - split; [reflexivity|]. split; [|discriminate].
    intros _. split; [reflexivity|]. now exists "Select a deck first".
Qed.

(** ** Studying a whole deck *)

Lemma press_all_right (q : list entry) :
  forall (win : StudyWindow.t) (w : world) (cur : entry),
    queue win = q -> current win = Some cur ->
    snd (press (S (List.length q)) true (win, w))
    = record_all (e_id cur :: map e_id q) w.
Proof.
  induction q as [|e q IH]; intros win w cur Hq Hcur.
  - cbn [press List.length]. now rewrite (mark_step _ _ _ _ Hcur).
  - change (press (S (List.length (e :: q))) true (win, w))
      with (press (S (List.length q)) true (snd (mark true (win, w)))).
    rewrite (mark_step _ _ _ _ Hcur), Hq. cbn [snd].
    rewrite (IH (mk q (Some e) false (or_empty (e_front e)) (destroyed win) (dialogs win))
                _ e eq_refl eq_refl).
    reflexivity.
Qed.

Lemma sorted_lt_nodup (ids : list Z) : StronglySorted Z.lt ids -> NoDup ids.
Proof.
  induction 1 as [|x rest Hrest IH Hall]; constructor; [|exact IH].
  intros Hin. rewrite Forall_forall in Hall. specialize (Hall x Hin). lia.
Qed.

Lemma find_in_sorted {R} (id_of : R -> Z) (rows : list R) (r : R) :
  StronglySorted Z.lt (map id_of rows) -> In r rows ->
  find (fun x => id_of x =? id_of r) rows = Some r.
Proof.
  induction rows as [|x rows IH]; simpl; intros Hs Hin; [destruct Hin|].
  inversion Hs as [|? ? Hrest Hall]; subst.
  destruct Hin as [-> | Hin]; [now rewrite Z.eqb_refl|].
  rewrite Forall_forall in Hall.
  specialize (Hall (id_of r) (in_map id_of _ _ Hin)).
  assert ((id_of x =? id_of r) = false) as -> by (apply Z.eqb_neq; lia).
  now apply IH.
Qed.

Lemma record_all_found (ids : list Z) :
  forall (w : world) (C : card),
    find_card (c_id C) (working w) = Some C ->
    NoDup ids ->
    find_card (c_id C) (working (record_all ids w))
    = Some (if existsb (Z.eqb (c_id C)) ids then bump_both C else C) /\
    decks (working (record_all ids w)) = decks (working w) /\
    map c_id (cards (working (record_all ids w))) = map c_id (cards (working w)).
Proof.
  induction ids as [|id ids IH]; intros w C HC Hnd; [repeat split; exact HC|].
  inversion Hnd as [|? ? Hnotin Hrest]; subst.
  cbn [record_all fold_left existsb].
  change (fold_left _ ids ?w0) with (record_all ids w0).
  set (w1 := snd (Model.record_result id true w)).
  assert (Hframe : decks (working w1) = decks (working w) /\
                   map c_id (cards (working w1)) = map c_id (cards (working w))).
  { split; [reflexivity|]. apply update_where_ids. reflexivity. }
  destruct (Z.eqb_spec (c_id C) id) as [Heq | Hne].
  - assert (HC1 : find_card (c_id (bump_both C)) (working w1) = Some (bump_both C)).
    { subst id. exact (record_result_found w (c_id C) true C HC). }
    destruct (IH w1 (bump_both C) HC1 Hrest) as (Hfind & Hdecks & Hids).
    assert (Hfresh : existsb (Z.eqb (c_id C)) ids = false).
    { destruct (existsb (Z.eqb (c_id C)) ids) eqn:E; [|reflexivity].
      apply existsb_exists in E. destruct E as (x & Hx & Hcx).
      apply Z.eqb_eq in Hcx. subst. contradiction. }
    change (c_id (bump_both C)) with (c_id C) in Hfind.
    rewrite Hfresh in Hfind. cbn [orb].
    split; [exact Hfind|]. destruct Hframe. split; congruence.
  - assert (HC1 : find_card (c_id C) (working w1) = Some C).
    { unfold find_card in *. simpl.
      rewrite (find_update_where_miss c_id id (c_id C) bump_both); [exact HC | reflexivity|].
      exact Hne. }
    destruct (IH w1 C HC1 Hrest) as (Hfind & Hdecks & Hids).
    cbn [orb]. split; [exact Hfind|]. destruct Hframe. split; congruence.
Qed.

(** X19. Studying the selected deck and answering every card right: the
    window closes after as many marks as the deck has cards; every card of
    the deck has then one more in both counters, and every other card and
    every deck is as before.  For a deck without cards no window opens and
    nothing is written. *)
Theorem study_deck_all_right (a : App.t) (w : world) (deck_id : Z) :
  rowid_ordered (working w) ->
  App.chosen (App.selected_deck_id a) = Some deck_id ->
  let (r, s) := App.start_study (a, w) in
  snd s = w /\
  match listing deck_id w with
  | [] => r = Ok None
  | rows =>
      exists win,
        r = Ok (Some win) /\
        (forall k, (k < List.length rows)%nat ->
                   destroyed (fst (press k true (win, w))) = false) /\
        let done := press (List.length rows) true (win, w) in
        destroyed (fst done) = true /\
        decks (working (snd done)) = decks (working w) /\
        map c_id (cards (working (snd done))) = map c_id (cards (working w)) /\
        forall C, In C (cards (working w)) ->
                  find_card (c_id C) (working (snd done))
                  = Some (if c_deck_id C =? deck_id then bump_both C else C)
  end.
Proof.
  intros [_ Hsorted] Hchosen. run_handler. rewrite Hchosen. cbn [fst snd].
  fold (listing deck_id w).
  set (chosen_rows := select_where c_deck_id deck_id (cards (working w))).
  assert (Hrows : StronglySorted Z.lt (map c_id chosen_rows))
    by (apply filter_keeps_order; exact Hsorted).
  assert (Hlisting : listing deck_id w = map Model.as_row chosen_rows)
    by (unfold listing; fold chosen_rows; now rewrite (order_by_id_sorted _ Hrows)).
  rewrite Hlisting.
  destruct chosen_rows as [|c rows] eqn:Echosen; cbn [map fst snd];
    [split; reflexivity|].
  split; [reflexivity|].
  eexists. split; [reflexivity|].
  set (entries := map study_entry (map Model.as_row rows)).
  set (first := study_entry (Model.as_row c)).
  assert (Hlen : List.length (map Model.as_row rows) = List.length entries)
    by (unfold entries; now rewrite !length_map).
  assert (Hids : e_id first :: map e_id entries = map c_id (c :: rows)).
  { unfold entries. rewrite !map_map. reflexivity. }
  destruct (press_true_run entries (init (first :: entries)) w first
                           eq_refl eq_refl eq_refl) as (Hopen & Hclosed & _).
  cbn [List.length]. rewrite Hlen. split.
  { intros k Hk. apply Hopen. lia. }
  split; [exact Hclosed|].
  assert (Hstore : snd (press (S (List.length entries)) true
                              (init (first :: entries), w))
                   = record_all (map c_id (c :: rows)) w).
  { rewrite (press_all_right entries (init (first :: entries)) w first eq_refl eq_refl).
    now rewrite Hids. }
  rewrite Hstore.
  assert (Hnodup : NoDup (map c_id (c :: rows))) by now apply sorted_lt_nodup.
  assert (Hc_in : In c (cards (working w))).
  { apply (proj1 (filter_In (fun r => c_deck_id r =? deck_id) c (cards (working w)))).
    change (In c (select_where c_deck_id deck_id (cards (working w)))).
    fold chosen_rows. rewrite Echosen. now left. }
  pose proof (find_in_sorted c_id _ c Hsorted Hc_in) as Hc_found.
  destruct (record_all_found (map c_id (c :: rows)) w c Hc_found Hnodup)
    as (_ & Hdecks & Hsame).
  split; [exact Hdecks|]. split; [exact Hsame|].
  intros C HC.
  pose proof (find_in_sorted c_id _ C Hsorted HC) as HC_found.
  destruct (record_all_found (map c_id (c :: rows)) w C HC_found Hnodup)
    as (Hfind & _ & _).
  rewrite Hfind. f_equal.
  assert (Hin_rows : forall C0, In C0 (c :: rows) <->
                                In C0 (cards (working w)) /\
                                (c_deck_id C0 =? deck_id) = true).
  { intros C0. rewrite <- Echosen. unfold chosen_rows, select_where. apply filter_In. }
  assert (Hmember : existsb (Z.eqb (c_id C)) (map c_id (c :: rows))
                    = (c_deck_id C =? deck_id)).
  { destruct (c_deck_id C =? deck_id) eqn:Ed.
    - apply existsb_exists. exists (c_id C). split; [|apply Z.eqb_refl].
      apply in_map. apply Hin_rows. now split.
    - apply not_true_is_false. intros E.
      apply existsb_exists in E. destruct E as (x & Hx & Hcx). apply Z.eqb_eq in Hcx.
      subst x. apply in_map_iff in Hx. destruct Hx as (C0 & Hid & HC0).
      apply Hin_rows in HC0. destruct HC0 as [HC0 Hd0].
      pose proof (find_in_sorted c_id _ C0 Hsorted HC0) as H0.
      rewrite Hid, HC_found in H0. injection H0 as ->. congruence. }
  now rewrite Hmember.
Qed.

(** ** The store between two calls *)

(** X1. In every state of a history nothing is waiting for a commit, and
    both tables hold their rows under distinct ids in increasing order. *)
Theorem history_is_committed_and_ordered (w : world) :
  reachable w ->
  durable w = working w /\
  StronglySorted Z.lt (map d_id (decks (working w))) /\
  StronglySorted Z.lt (map c_id (cards (working w))) /\
  NoDup (map d_id (decks (working w))) /\
  NoDup (map c_id (cards (working w))).
Proof.
  intros Hr.
  assert (Hboth : synced w /\ ordered w).
  { induction Hr as [fs clk | w c _ [Hs Ho]].
    - split; [reflexivity|]. repeat split; constructor.
    - split; [now apply calls_keep_synced | now apply calls_keep_order]. }
  destruct Hboth as [Hs [[Hd Hc] _]].
  split; [symmetry; exact Hs|]. split; [exact Hd|]. split; [exact Hc|].
  split; now apply sorted_lt_nodup.
Qed.

(** X4. A call leaves no card without its deck, in the working database
    and on disk, unless it is an [add_card] under a deck id that no deck
    has. *)
Theorem calls_leave_no_orphans (c : call) (w : world) :
  synced w ->
  respects_decks c w ->
  no_orphans (working w) ->
  no_orphans (working (perform c w)) /\ no_orphans (durable (perform c w)).
Proof.
  intros Hs Hc Hno.
  pose proof (calls_keep_no_orphans c w Hc Hno) as Hworking.
  pose proof (calls_keep_synced c w Hs) as Hsynced.
  split; [exact Hworking|]. unfold synced in Hsynced. now rewrite <- Hsynced.
Qed.

(** ** The added properties at sample stores *)

Lemma sample_history_reachable : reachable sample_history.
Proof. unfold sample_history. do 3 apply reach_call. apply reach_init. Qed.

Lemma history_is_committed_and_ordered_witness :
  reachable sample_history /\
  durable sample_history = working sample_history /\
  NoDup (map c_id (cards (working sample_history))).
Proof.
  split; [exact sample_history_reachable|].
  destruct (history_is_committed_and_ordered sample_history sample_history_reachable)
    as (Hs & _ & _ & _ & Hc).
  split; assumption.
Defined.

Lemma reachable_counted_witness :
  reachable sample_history /\
  In (mkCard 1 1 (Some "hola") (Some "hello") 1 1 "t1") (cards (working sample_history)) /\
  0 <= 1 <= 1.
Proof.
  split; [exact sample_history_reachable|].
  assert (Hin : In (mkCard 1 1 (Some "hola") (Some "hello") 1 1 "t1")
                   (cards (working sample_history)))
    by (vm_compute; left; reflexivity).
  split; [exact Hin|].
  exact (reachable_counted sample_history sample_history_reachable _ Hin).
Defined.

Lemma calls_keep_card_witness :
  rowid_ordered (working two_decks_world) /\
  find_card 1 (working two_decks_world) = Some hola /\
  find_card 1 (working (perform (RecordResult 1 false) two_decks_world))
  = Some (mkCard 1 1 (Some "hola") (Some "hello") 0 1 "t1") /\
  c_correct_count hola <= 0 /\ c_seen_count hola <= 1.
Proof.
  assert (Hord : rowid_ordered (working two_decks_world))
    by (split; vm_compute; repeat (constructor; try reflexivity)).
  assert (Hafter : find_card 1 (working (perform (RecordResult 1 false) two_decks_world))
                   = Some (mkCard 1 1 (Some "hola") (Some "hello") 0 1 "t1"))
    by (vm_compute; reflexivity).
  split; [exact Hord|]. split; [reflexivity|]. split; [exact Hafter|].
  destruct (calls_keep_card (RecordResult 1 false) two_decks_world 1 hola _
                            Hord eq_refl Hafter) as (_ & _ & Hc & Hs & _).
  split; assumption.
Defined.

Lemma calls_leave_no_orphans_witness :
  synced two_decks_world /\
  respects_decks (AddCard 2 (JStr "merci") (JStr "thanks")) two_decks_world /\
  no_orphans (working two_decks_world) /\
  no_orphans (durable (perform (AddCard 2 (JStr "merci") (JStr "thanks"))
                               two_decks_world)).
Proof.
  assert (Hno : no_orphans (working two_decks_world)).
  { intros c Hc. vm_compute in Hc.
    repeat (destruct Hc as [<- | Hc]; [vm_compute; reflexivity|]). destruct Hc. }
  split; [reflexivity|]. split; [vm_compute; reflexivity|]. split; [exact Hno|].
  apply (calls_leave_no_orphans (AddCard 2 (JStr "merci") (JStr "thanks"))
                                two_decks_world eq_refl);
    [vm_compute; reflexivity | exact Hno].
Defined.

Lemma two_decks_ordered : rowid_ordered (working two_decks_world).
Proof. split; vm_compute; repeat (constructor; try reflexivity). Qed.

Lemma two_decks_no_orphans : no_orphans (working two_decks_world).
Proof.
  intros c Hc. vm_compute in Hc.
  repeat (destruct Hc as [<- | Hc]; [vm_compute; reflexivity|]). destruct Hc.
Qed.

Lemma export_import_roundtrip_witness :
  rowid_ordered (working two_decks_world) /\
  no_orphans (working two_decks_world) /\
  Model.deck_name_of 1 (working two_decks_world) = Some "Spanish" /\
  fst (Model.import_deck_json
         "spanish.json"
         (snd (Model.export_deck_json 1 "spanish.json" two_decks_world)))
  = Ok 3.
Proof.
  split; [exact two_decks_ordered|]. split; [exact two_decks_no_orphans|].
  split; [reflexivity|].
  assert (Hpath : lookup_file "spanish.json" (files two_decks_world) <> Some Forbidden)
    by discriminate.
  pose proof (export_import_roundtrip two_decks_world 1 "spanish.json" "Spanish"
                two_decks_ordered two_decks_no_orphans eq_refl Hpath) as H.
  cbv zeta in H.
  destruct (Model.import_deck_json
              "spanish.json"
              (snd (Model.export_deck_json 1 "spanish.json" two_decks_world)))
    as [r w2].
  exact (proj1 H).
Defined.

Lemma add_card_appends_witness :
  rowid_ordered (working two_decks_world) /\
  bindable (JNum 1) = true /\
  listing 1 (snd (Model.add_card 1 (JStr "uno") (JStr "one") two_decks_world))
  = listing 1 two_decks_world ++ [(4, Some "uno", Some "one", 0, 0)].
Proof.
  split; [exact two_decks_ordered|]. split; [reflexivity|].
  pose proof (add_card_appends two_decks_world 1 (JStr "uno") (JStr "one") _ _
                               two_decks_ordered eq_refl eq_refl eq_refl) as H.
  destruct (Model.add_card 1 (JStr "uno") (JStr "one") two_decks_world) as [r w'].
  destruct H as (_ & _ & Hlisting & _). exact Hlisting.
Defined.

Lemma single_card_retries_witness :
  find_card 1 (working spanish_world) = Some hola /\
  let entry := mkEntry 1 (Some "hola") (Some "hello") in
  let closed := snd (mark true (press 2 false (init [entry], spanish_world))) in
  destroyed (fst closed) = true /\
  exists C', find_card 1 (working (snd closed)) = Some C' /\
             c_seen_count C' = 3 /\ c_correct_count C' = 1.
Proof.
  split; [reflexivity|].
  destruct (single_card_retries 2 spanish_world (mkEntry 1 (Some "hola") (Some "hello"))
                                hola eq_refl)
    as (_ & Hclosed & _ & C' & Hfind & Hseen & Hcorrect & _).
  split; [exact Hclosed|]. exists C'. repeat split; assumption.
Defined.

(** "Spanish" is studied, "hola" is answered wrong, and "adios" is
    deleted while the window shows it. *)
Lemma mark_after_card_deleted_witness :
  let shown := fst (snd (mark false (init spanish_entries, spanish_world))) in
  let gone := mkEntry 2 (Some "adios") (Some "bye") in
  current shown = Some gone /\
  bindable (JNum 2) = true /\
  synced adios_deleted_world /\
  find_card 2 (working adios_deleted_world) = None /\
  (let (r, s') := mark true (shown, adios_deleted_world) in
   r = Ok tt /\ snd s' = adios_deleted_world /\
   current (fst s') = Some (mkEntry 1 (Some "hola") (Some "hello"))).
Proof.
  cbv zeta.
  split; [reflexivity|]. split; [reflexivity|]. split; [reflexivity|].
  split; [reflexivity|].
  pose proof (mark_after_card_deleted
                (fst (snd (mark false (init spanish_entries, spanish_world))))
                adios_deleted_world (mkEntry 2 (Some "adios") (Some "bye")) true
                eq_refl eq_refl eq_refl eq_refl) as H.
  destruct (mark true (fst (snd (mark false (init spanish_entries, spanish_world))),
                       adios_deleted_world)) as [r s'].
  destruct H as (Hr & Hstore & Hcur & _).
  split; [exact Hr|]. split; [exact Hstore | exact Hcur].
Defined.

Lemma sample_run_running : running sample_run.
Proof. unfold sample_run. do 3 apply run_event. apply run_start. Qed.

(** C10 as stated does not hold for an entry whose card was deleted: the
    id of a deleted card is given out again.  In this run of the program
    the study window is open on "hola", card 1; the card is deleted, and
    the card added next, "nuevo", is card 1 again; the Correct button of
    the window then counts a right answer on "nuevo", which was never
    shown. *)
Lemma stale_mark_counts_on_new_card :
  running reissued_id_run /\
  map current (windows stale_entry_run)
  = [Some (mkEntry 1 (Some "hola") (Some "hello"))] /\
  cards (durable (store stale_entry_run)) = [] /\
  cards (durable (store (handle (AddCardClicked "nuevo" "new") stale_entry_run)))
  = [mkCard 1 1 (Some "nuevo") (Some "new") 0 0 "t2"] /\
  cards (durable (store reissued_id_run))
  = [mkCard 1 1 (Some "nuevo") (Some "new") 1 1 "t2"].
Proof.
  split.
  - unfold reissued_id_run, stale_entry_run, sample_run.
    do 8 apply run_event. apply run_start.
  - vm_compute. repeat split.
Qed.

Lemma program_leaves_no_orphans_witness :
  running sample_run /\
  cards (working (store sample_run))
  = [mkCard 1 1 (Some "hola") (Some "hello") 0 0 "t1"] /\
  no_orphans (working (store sample_run)).
Proof.
  split; [exact sample_run_running|]. split; [vm_compute; reflexivity|].
  exact (proj1 (program_leaves_no_orphans sample_run sample_run_running)).
Defined.

Lemma program_names_every_deck_witness :
  running sample_run /\
  In (mkDeck 1 "Spanish" "t0") (decks (durable (store sample_run))) /\
  "Spanish" <> "".
Proof.
  split; [exact sample_run_running|].
  assert (Hin : In (mkDeck 1 "Spanish" "t0") (decks (durable (store sample_run))))
    by (vm_compute; left; reflexivity).
  split; [exact Hin|].
  exact (program_names_every_deck sample_run sample_run_running _ Hin).
Defined.

Lemma study_deck_all_right_witness :
  rowid_ordered (working two_decks_world) /\
  App.chosen (App.selected_deck_id deck_one_selected) = Some 1 /\
  exists win,
    fst (App.start_study (deck_one_selected, two_decks_world)) = Ok (Some win) /\
    destroyed (fst (press 2 true (win, two_decks_world))) = true /\
    find_card 1 (working (snd (press 2 true (win, two_decks_world))))
    = Some (mkCard 1 1 (Some "hola") (Some "hello") 1 1 "t1") /\
    find_card 3 (working (snd (press 2 true (win, two_decks_world))))
    = find_card 3 (working two_decks_world).
Proof.
  split; [exact two_decks_ordered|]. split; [reflexivity|].
  pose proof (study_deck_all_right deck_one_selected two_decks_world 1
                                   two_decks_ordered eq_refl) as H.
  destruct (App.start_study (deck_one_selected, two_decks_world)) as [r s].
  destruct H as [_ H].
  assert (Hlisting : listing 1 two_decks_world
                     = [ (1, Some "hola", Some "hello", 0, 0);
                         (2, Some "adios", Some "bye", 0, 0) ]) by reflexivity.
  rewrite Hlisting in H. destruct H as (win & Hr & _ & Hclosed & _ & _ & Hcards).
  exists win. split; [exact Hr|]. split; [exact Hclosed|]. split.
  - apply (Hcards hola). vm_compute. left. reflexivity.
  - assert (Hin : In (mkCard 3 2 (Some "bonjour") (Some "hello") 0 0 "t4")
                     (cards (working two_decks_world)))
      by (vm_compute; right; right; left; reflexivity).
    exact (Hcards _ Hin).
Defined.


Lemma delete_card_removes_witness :
  let w' := snd (Model.delete_card 1 spanish_world) in
  bindable (JNum 1) = true /\
  find_card 1 (working w') = None /\
  find_card 2 (working w') = find_card 2 (working spanish_world) /\
  Model.delete_card 1 w' = (Ok tt, w').
Proof.
  pose proof (delete_card_removes spanish_world 1 eq_refl) as H. cbv zeta.
  destruct (Model.delete_card 1 spanish_world) as [r w'].
  destruct H as (_ & Hgone & Hother & _ & _ & Hagain & _). cbn [snd].
  split; [reflexivity|]. split; [exact Hgone|]. split; [|exact Hagain]. apply Hother. discriminate.
Defined.

Lemma rename_deck_frame_witness :
  find_deck 1 (working spanish_world) = Some (mkDeck 1 "Spanish" "t0") /\
  fst (Model.rename_deck 1 JNull spanish_world) = Raise IntegrityError /\
  exists D',
    find_deck 1 (working (snd (Model.rename_deck 1 (JStr "Castellano") spanish_world)))
    = Some D' /\
    d_created_at D' = "t0".
Proof.
  split; [reflexivity|]. split.
  - pose proof (rename_deck_frame spanish_world 1 JNull) as H.
    destruct (Model.rename_deck 1 JNull spanish_world) as [r w'].
    destruct H as (_ & _ & _ & Hdeck & _).
    destruct (Hdeck _ eq_refl) as [Hnull _]. exact (Hnull eq_refl).
  - pose proof (rename_deck_frame spanish_world 1 (JStr "Castellano")) as H.
    destruct (Model.rename_deck 1 (JStr "Castellano") spanish_world) as [r w'].
    destruct H as (_ & _ & _ & Hdeck & _).
    destruct (Hdeck _ eq_refl) as [_ (D' & Hfind & _ & Hat & _)].
    exists D'. split; assumption.
Defined.

Lemma add_deck_fresh_witness :
  bind_param (JStr "French") = Ok (SqlText "French") /\
  fst (Model.add_deck (JStr "French") spanish_world) = Ok 2 /\
  In (2, "French") (deck_listing (snd (Model.add_deck (JStr "French") spanish_world))).
Proof.
  split; [reflexivity|].
  pose proof (add_deck_fresh spanish_world (JStr "French")) as H.
  destruct (Model.add_deck (JStr "French") spanish_world) as [r w'].
  destruct H as (_ & Htext & _).
  destruct (Htext _ _ eq_refl eq_refl) as (Hr & _ & _ & _ & _ & Hlisted).
  split; assumption.
Defined.

Lemma flip_toggles_witness :
  shows_front (init spanish_entries) (mkEntry 1 (Some "hola") (Some "hello")) /\
  front_lbl (snd (flip (init spanish_entries))) = "hello" /\
  snd (flip (snd (flip (init spanish_entries)))) = init spanish_entries.
Proof.
  assert (Hfront : shows_front (init spanish_entries)
                               (mkEntry 1 (Some "hola") (Some "hello")))
    by (repeat split).
  split; [exact Hfront|].
  pose proof (flip_toggles (init spanish_entries)) as H.
  destruct (flip (init spanish_entries)) as [r win'].
  destruct H as (_ & _ & _ & _ & _ & _ & Hshown).
  destruct (Hshown _ Hfront) as (_ & Hlbl & Hback). split; assumption.
Defined.

Lemma add_card_refuses_blank_witness :
  blank "   " = true /\ blank " " = true /\
  snd (snd (App.add_card "   " " " (deck_one_selected, spanish_world))) = spanish_world.
Proof.
  split; [reflexivity|]. split; [reflexivity|].
  pose proof (add_card_refuses_blank deck_one_selected spanish_world "   " " ") as H.
  destruct (App.add_card "   " " " (deck_one_selected, spanish_world)) as [r s'].
  destruct H as (_ & Hrefused & _).
  exact (proj1 (Hrefused (or_intror (conj eq_refl eq_refl)))).
Defined.
